(** * TaskTimer: a tick-driven scheduler of periodic tasks

    A shallow embedding of [src/TaskTimer.ts].  The class keeps all of its
    state in one private record ([this._]) next to the handle of the interval
    timer ([this._timer]); the methods below pass that state explicitly.

    Modelling conventions.
    - JavaScript numbers that the class only counts with (tick, run and
      completed counters, timestamps) are integers of [Z]; the interval, which
      the setter tests for truthiness, and the result of [%] range over
      [number], integers plus [NaN].
    - The task registry is a plain object used as a map from names to tasks.
      Its own properties are an association list in the order [Object.keys]
      and [for ... in] enumerate them: array indices first, in ascending
      order, then the other names in the order of their creation.  A read
      [tasks[name]] that finds no own property goes on to the prototype, and
      finds the members every object inherits from [Object.prototype] for as
      long as the registry has that prototype.
    - Task callbacks and event listeners are user code.  Each invocation and
      each emitted event is recorded, in order, in a trace; user code is taken
      not to call back into the timer while it runs.
    - [Date.now()] is an argument [now] of the methods that read the clock.
    - The [Task] class is imported by the source file but defined elsewhere;
      it is modelled from the specification (module [Task]). *)

From Stdlib Require Import ZArith List String Bool Lia FinFun.
From Stdlib Require Import Decimal DecimalNat DecimalString.
Import ListNotations.

Local Open Scope Z_scope.

(** ** Numbers *)

Inductive number : Type :=
| NaN
| Num (z : Z).

(** [Boolean(v)] for a number: [0] and [NaN] are falsy. *)
Definition truthy (v : number) : bool :=
  match v with
  | NaN => false
  | Num z => negb (z =? 0)
  end.

(** [a % b]: the remainder has the sign of the dividend, and is [NaN] when the
    divisor is zero. *)
Definition js_rem (a b : Z) : number :=
  if b =? 0 then NaN else Num (Z.rem a b).

(** [v === 0] *)
Definition is_zero (v : number) : bool :=
  match v with
  | NaN => false
  | Num z => z =? 0
  end.

(** ['' + n] for a non-negative counter: its decimal numeral. *)
Definition string_of_nat (n : nat) : string :=
  NilEmpty.string_of_uint (Nat.to_uint n).

(** ** Enumerations *)

Module State.
Inductive t : Type := IDLE | RUNNING | PAUSED | STOPPED.

Definition eqb (a b : t) : bool :=
  match a, b with
  | IDLE, IDLE | RUNNING, RUNNING | PAUSED, PAUSED | STOPPED, STOPPED => true
  | _, _ => false
  end.
End State.

Module EventType.
Inductive t : Type :=
| TICK | STARTED | RESUMED | PAUSED | STOPPED | RESET
| TASK | TASK_ADDED | TASK_REMOVED | TASK_COMPLETED | COMPLETED.

Definition eqb (a b : t) : bool :=
  match a, b with
  | TICK, TICK | STARTED, STARTED | RESUMED, RESUMED | PAUSED, PAUSED
  | STOPPED, STOPPED | RESET, RESET | TASK, TASK | TASK_ADDED, TASK_ADDED
  | TASK_REMOVED, TASK_REMOVED | TASK_COMPLETED, TASK_COMPLETED
  | COMPLETED, COMPLETED => true
  | _, _ => false
  end.
End EventType.

(** ** Tasks *)

(** A callback is user code; the model keeps its identity only. *)
Definition TaskCallback : Type := nat.

(** The options record [ITaskOptions]; an absent key is [None]. *)
Record ITaskOptions : Type := mkTaskOptions {
  opt_name : option string;
  opt_tickInterval : option Z;
  opt_totalRuns : option Z;
  opt_stopDate : option Z;
  opt_enabled : option bool;
  opt_callback : option TaskCallback
}.

Module Task.

(** Modelled from the spec: the [Task] class, which [TaskTimer.ts] imports
    from the package index and whose file is not part of the sources.  The
    fields are those of the specification's data model; [completed] is the
    flag that, by the contract of the class, executing the task sets. *)
Record t : Type := mk {
  name : string;
  tickInterval : Z;
  totalRuns : Z;
  stopDate : option Z;
  currentRuns : Z;
  enabled : bool;
  completed : bool;
  callback : TaskCallback
}.

Definition with_name (s : string) (k : t) : t :=
  mk s (tickInterval k) (totalRuns k) (stopDate k) (currentRuns k)
     (enabled k) (completed k) (callback k).

(** Modelled from the spec: the constructor [new Task(options)], missing with
    the class.  Defaults: [tickInterval] 1, [enabled] true, no run limit;
    [currentRuns] starts at 0; construction fails when the callback is
    absent. *)
Definition create (o : ITaskOptions) : option t :=
  match opt_callback o with
  | None => None
  | Some cb =>
      Some (mk (match opt_name o with Some s => s | None => EmptyString end)
               (match opt_tickInterval o with Some n => n | None => 1 end)
               (match opt_totalRuns o with Some n => n | None => 0 end)
               (opt_stopDate o)
               0
               (match opt_enabled o with Some b => b | None => true end)
               false
               cb)
  end.

Definition expired (now : Z) (k : t) : bool :=
  match stopDate k with
  | Some d => d <=? now
  | None => false
  end.

(** Modelled from the spec: the bookkeeping half of [Task._run], missing with
    the class.  After the callback returned, [currentRuns] is incremented
    and the task is marked completed when the run limit is reached or the
    stop date has passed. *)
Definition record_run (now : Z) (k : t) : t :=
  let runs := currentRuns k + 1 in
  mk (name k) (tickInterval k) (totalRuns k) (stopDate k) runs (enabled k)
     (((0 <? totalRuns k) && (totalRuns k <=? runs)) || expired now k)
     (callback k).

(** Modelled from the spec: the guard of [Task._run], missing with the
    class: a disabled or completed task does not execute.  (The comment in
    [_tick] says the same of the call.)  The re-evaluation of the stop date at
    decision time, which the specification leaves optional, is not part of
    the model. *)
Definition can_run (k : t) : bool :=
  enabled k && negb (completed k).

End Task.

(** ** Events and the trace *)

(** What a read [tasks[name]] yields when it yields something: a task that is
    registered under the name, or the member of [Object.prototype] of that
    name (a function, or for [__proto__] the prototype object itself). *)
Inductive Member : Type :=
| TaskOf (k : Task.t)
| Inherited (name : string).

(** The event envelope [{ type, source, data }]; [source] is always the timer
    itself and is left out. *)
Record ITaskTimerEvent : Type := mkEvent {
  type : EventType.t;
  data : option Member
}.

Inductive Effect : Type :=
| Emitted (e : ITaskTimerEvent)
| Called (cb : TaskCallback) (arg : Task.t).

(** ** Timer state *)

Record ITaskTimerOptions : Type := mkOptions {
  opt_interval : number;
  opt_stopOnCompleted : bool
}.

Definition DEFAULT_TIMER_OPTIONS : ITaskTimerOptions :=
  mkOptions (Num 1000) false.

Module P.
(** The private record [this._].  The object [tasks] is its own properties
    ([tasks]) and its prototype: [proto] says whether that is still
    [Object.prototype], as for every object literal, or has been set to
    [null]. *)
Record t : Type := mk {
  options : ITaskTimerOptions;
  state : State.t;
  tasks : list (string * Task.t);
  tickCount : Z;
  runCount : Z;
  startTime : Z;
  stopTime : Z;
  completedCount : Z;
  proto : bool
}.

Definition with_options o (p : t) : t :=
  mk o (state p) (tasks p) (tickCount p) (runCount p) (startTime p)
     (stopTime p) (completedCount p) (proto p).
Definition with_state s (p : t) : t :=
  mk (options p) s (tasks p) (tickCount p) (runCount p) (startTime p)
     (stopTime p) (completedCount p) (proto p).
Definition with_tasks l (p : t) : t :=
  mk (options p) (state p) l (tickCount p) (runCount p) (startTime p)
     (stopTime p) (completedCount p) (proto p).
Definition with_tickCount n (p : t) : t :=
  mk (options p) (state p) (tasks p) n (runCount p) (startTime p)
     (stopTime p) (completedCount p) (proto p).
Definition with_runCount n (p : t) : t :=
  mk (options p) (state p) (tasks p) (tickCount p) n (startTime p)
     (stopTime p) (completedCount p) (proto p).
Definition with_startTime n (p : t) : t :=
  mk (options p) (state p) (tasks p) (tickCount p) (runCount p) n
     (stopTime p) (completedCount p) (proto p).
Definition with_stopTime n (p : t) : t :=
  mk (options p) (state p) (tasks p) (tickCount p) (runCount p)
     (startTime p) n (completedCount p) (proto p).
Definition with_completedCount n (p : t) : t :=
  mk (options p) (state p) (tasks p) (tickCount p) (runCount p)
     (startTime p) (stopTime p) n (proto p).
Definition with_proto b (p : t) : t :=
  mk (options p) (state p) (tasks p) (tickCount p) (runCount p)
     (startTime p) (stopTime p) (completedCount p) b.
End P.

(** A [TaskTimer] instance: the private record, the handle of the interval
    timer ([None] for [null], otherwise the period it was armed with) and the
    trace of what the instance did so far, oldest first. *)
Record TaskTimer : Type := mkTimer {
  priv : P.t;
  _timer : option number;
  trace : list Effect
}.

Definition update (f : P.t -> P.t) (t : TaskTimer) : TaskTimer :=
  mkTimer (f (priv t)) (_timer t) (trace t).

Definition record (e : Effect) (t : TaskTimer) : TaskTimer :=
  mkTimer (priv t) (_timer t) (trace t ++ [e]).

(** ** Outcomes of the methods that can throw *)

Inductive Error : Type :=
| NameConflict (name : string)
| NotFound (name : string)
| CallbackNotSet.

(** [Throw e t]: the method threw [e], leaving the instance as [t].
    [Diverge]: the method did not return. *)
Inductive Result : Type :=
| Ok (t : TaskTimer)
| Throw (e : Error) (t : TaskTimer)
| Diverge.

(** ** The registry: a plain object used as a map *)

(** The own properties of [tasks], in enumeration order. *)
Definition Registry : Type := list (string * Task.t).

(** The own property [name] of [tasks], if there is one. *)
Fixpoint own_property (name : string) (l : Registry) : option Task.t :=
  match l with
  | [] => None
  | (k, v) :: r => if String.eqb k name then Some v else own_property name r
  end.

(** The names of the members of [Object.prototype]. *)
Definition Object_prototype : list string :=
  ["constructor"; "__defineGetter__"; "__defineSetter__"; "hasOwnProperty";
   "__lookupGetter__"; "__lookupSetter__"; "isPrototypeOf";
   "propertyIsEnumerable"; "toString"; "valueOf"; "__proto__";
   "toLocaleString"]%string.

Definition inherited (name : string) : bool :=
  existsb (String.eqb name) Object_prototype.

(** Whether [name] is an array index: the canonical decimal numeral of an
    integer from 0 to 2^32 - 2.  These are the names that an object
    enumerates first, by value. *)
Definition array_index (name : string) : option N :=
  match NilEmpty.uint_of_string name with
  | Some d =>
      let n := N.of_uint d in
      if String.eqb (NilEmpty.string_of_uint (N.to_uint n)) name
         && (n <=? 4294967294)%N
      then Some n else None
  | None => None
  end.

(** A new array index [i] goes before the first property that is not a
    smaller array index. *)
Fixpoint insert_index (i : N) (name : string) (task : Task.t) (l : Registry)
  : Registry :=
  match l with
  | [] => [(name, task)]
  | (k, v) :: r =>
      match array_index k with
      | Some j =>
          if (j <? i)%N then (k, v) :: insert_index i name task r
          else (name, task) :: (k, v) :: r
      | None => (name, task) :: (k, v) :: r
      end
  end.

(** Where a new own property comes in the enumeration: an array index among
    the array indices, by value; any other name last. *)
Definition place (name : string) (task : Task.t) (l : Registry) : Registry :=
  match array_index name with
  | Some i => insert_index i name task l
  | None => l ++ [(name, task)]
  end.

(** Writing an own property that exists leaves it where it is. *)
Fixpoint replace (name : string) (task : Task.t) (l : Registry) : Registry :=
  match l with
  | [] => []
  | (k, v) :: r =>
      if String.eqb k name then (k, task) :: r
      else (k, v) :: replace name task r
  end.

(** [tasks[name] = task], for a name that is an own property or that a read
    does not find at all. *)
Definition assign (name : string) (task : Task.t) (l : Registry) : Registry :=
  match own_property name l with
  | Some _ => replace name task l
  | None => place name task l
  end.

(** [delete tasks[name]] *)
Definition delete (name : string) (l : Registry) : Registry :=
  filter (fun kv => negb (String.eqb (fst kv) name)) l.

(** [Object.keys(tasks)], also the keys a [for ... in] loop visits: the
    members of [Object.prototype] are not enumerable. *)
Definition keys (l : Registry) : list string := map fst l.

(** ** Public properties *)

Definition interval (t : TaskTimer) : number :=
  opt_interval (P.options (priv t)).

Definition set_interval (value : number) (t : TaskTimer) : TaskTimer :=
  update (fun p =>
    P.with_options
      (mkOptions (if truthy value then value
                  else opt_interval DEFAULT_TIMER_OPTIONS)
                 (opt_stopOnCompleted (P.options p))) p) t.

Definition stopOnCompleted (t : TaskTimer) : bool :=
  opt_stopOnCompleted (P.options (priv t)).

Definition set_stopOnCompleted (value : bool) (t : TaskTimer) : TaskTimer :=
  update (fun p =>
    P.with_options (mkOptions (opt_interval (P.options p)) value) p) t.

Definition state (t : TaskTimer) : State.t := P.state (priv t).
Definition tickCount (t : TaskTimer) : Z := P.tickCount (priv t).
Definition runCount (t : TaskTimer) : Z := P.runCount (priv t).
Definition completedCount (t : TaskTimer) : Z := P.completedCount (priv t).
Definition tasks (t : TaskTimer) : Registry := P.tasks (priv t).

Definition taskCount (t : TaskTimer) : Z :=
  Z.of_nat (List.length (keys (tasks t))).

(** The read [this._.tasks[name]]: the own property, or else the member the
    prototype has under that name. *)
Definition read (name : string) (p : P.t) : option Member :=
  match own_property name (P.tasks p) with
  | Some k => Some (TaskOf k)
  | None =>
      if P.proto p && inherited name then Some (Inherited name) else None
  end.

(** [get(name)]: what the read yields, or [null].  Everything the read can
    yield is truthy. *)
Definition get (name : string) (t : TaskTimer) : option Member :=
  read name (priv t).

(** [this.get(name)] taken as a condition, the test [_add] and
    [_getNewTaskName] make of a name: true of the name of a registered task,
    and also of a name that only the prototype has. *)
Definition registered (name : string) (t : TaskTimer) : bool :=
  match get name t with Some _ => true | None => false end.

(** ** Private methods *)

Definition _emit (ty : EventType.t) (d : option Member) (t : TaskTimer)
  : TaskTimer :=
  record (Emitted (mkEvent ty d)) t.

(** [clearInterval] on a live handle, then [this._timer = null]. *)
Definition _stop (t : TaskTimer) : TaskTimer :=
  mkTimer (priv t) None (trace t).

(** [setInterval] with the interval the options hold at that moment. *)
Definition _run (t : TaskTimer) : TaskTimer :=
  mkTimer (priv t) (Some (interval t)) (trace t).

Definition _reset (t : TaskTimer) : TaskTimer :=
  let t := _stop t in
  mkTimer (P.mk (P.options (priv t)) State.IDLE [] 0 0 0 0 0 true)
          (_timer t) (trace t).

(** ['task-' + num] *)
Definition task_name (num : nat) : string :=
  ("task-" ++ string_of_nat num)%string.

(** The [while] loop of [_getNewTaskName], unrolled at most [fuel] times;
    [None] when the fuel runs out before the loop exits. *)
Fixpoint _getNewTaskName_loop (fuel num : nat) (t : TaskTimer)
  : option string :=
  match fuel with
  | O => None
  | S fuel' =>
      let num := S num in
      let name := task_name num in
      if registered name t then _getNewTaskName_loop fuel' num t
      else Some name
  end.

Definition _getNewTaskName (t : TaskTimer) : option string :=
  let n := List.length (keys (tasks t)) in
  _getNewTaskName_loop (S n) n t.

(** ** The constructor *)

Inductive CtorArg : Type :=
| NoOptions
| WithOptions (i : option number) (s : option bool)
| WithInterval (n : number).

Definition new (a : CtorArg) : TaskTimer :=
  let d := DEFAULT_TIMER_OPTIONS in
  let options :=
    match a with
    | NoOptions => d
    | WithOptions i s =>
        mkOptions (match i with Some v => v | None => opt_interval d end)
                  (match s with Some b => b | None => opt_stopOnCompleted d end)
    | WithInterval n => mkOptions n (opt_stopOnCompleted d)
    end in
  mkTimer (P.mk options State.IDLE [] 0 0 0 0 0 true) None [].

(** ** Lifecycle methods *)

Definition start (now : Z) (t : TaskTimer) : TaskTimer :=
  let t := _stop t in
  let t := update (P.with_startTime now) t in
  let t := update (P.with_stopTime 0) t in
  let t := update (P.with_tickCount 0) t in
  let t := update (P.with_runCount 0) t in
  let t := _run t in
  let t := update (P.with_state State.RUNNING) t in
  _emit EventType.STARTED None t.

Definition pause (t : TaskTimer) : TaskTimer :=
  if negb (State.eqb (state t) State.RUNNING) then t
  else
    let t := _stop t in
    let t := update (P.with_state State.PAUSED) t in
    _emit EventType.PAUSED None t.

Definition resume (t : TaskTimer) : TaskTimer :=
  if negb (State.eqb (state t) State.PAUSED) then t
  else
    let t := _run t in
    let t := update (P.with_state State.RUNNING) t in
    _emit EventType.RESUMED None t.

Definition stop (now : Z) (t : TaskTimer) : TaskTimer :=
  if negb (State.eqb (state t) State.RUNNING) then t
  else
    let t := _stop t in
    let t := update (P.with_stopTime now) t in
    let t := update (P.with_state State.STOPPED) t in
    _emit EventType.STOPPED None t.

Definition reset (t : TaskTimer) : TaskTimer :=
  let t := _reset t in
  _emit EventType.RESET None t.

(** ** Adding and removing tasks *)

(** What [add] accepts for one task. *)
Inductive TaskInput : Type :=
| FromCallback (cb : TaskCallback)
| FromOptions (o : ITaskOptions)
| FromTask (k : Task.t).

(** [!name] for a name that may be absent. *)
Definition no_name (o : option string) : bool :=
  match o with
  | None => true
  | Some s => String.eqb s EmptyString
  end.

Definition input_name (i : ITaskOptions + Task.t) : option string :=
  match i with
  | inl o => opt_name o
  | inr k => Some (Task.name k)
  end.

Definition set_input_name (s : string) (i : ITaskOptions + Task.t)
  : ITaskOptions + Task.t :=
  match i with
  | inl o => inl (mkTaskOptions (Some s) (opt_tickInterval o) (opt_totalRuns o)
                                (opt_stopDate o) (opt_enabled o)
                                (opt_callback o))
  | inr k => inr (Task.with_name s k)
  end.

(** [typeof options === 'function'] wraps a bare callback into an options
    record; options records and [Task] instances are both objects. *)
Definition wrap (item : TaskInput) : ITaskOptions + Task.t :=
  match item with
  | FromCallback cb => inl (mkTaskOptions None None None None None (Some cb))
  | FromOptions o => inl o
  | FromTask k => inr k
  end.

(** The name [_add] goes on with: the given one, or a generated one when the
    given one is missing or empty. *)
Definition resolve_name (options : ITaskOptions + Task.t) (t : TaskTimer)
  : option string :=
  if no_name (input_name options) then _getNewTaskName t
  else input_name options.

Definition _add (item : TaskInput) (t : TaskTimer) : Result :=
  let options := wrap item in
  match resolve_name options t with
  | None => Diverge
  | Some name =>
      let options := set_input_name name options in
      if registered name t then Throw (NameConflict name) t
      else
        match (match options with
               | inr k => Some k
               | inl o => Task.create o
               end) with
        | None => Throw CallbackNotSet t
        | Some task =>
            let t := update (fun p =>
              P.with_tasks (assign (Task.name task) task (P.tasks p)) p) t in
            Ok (_emit EventType.TASK_ADDED (Some (TaskOf task)) t)
        end
  end.

(** The argument of [add]: one task, an array of them, or a falsy value. *)
Inductive AddArg : Type :=
| Single (i : TaskInput)
| Array (l : list TaskInput)
| Nothing.

Definition _ensureArray (o : AddArg) : list TaskInput :=
  match o with
  | Single i => [i]
  | Array l => l
  | Nothing => []
  end.

(** [list.forEach(item => this._add(item))]: the first throw ends the loop. *)
Fixpoint add_each (l : list TaskInput) (t : TaskTimer) : Result :=
  match l with
  | [] => Ok t
  | item :: r =>
      match _add item t with
      | Ok t' => add_each r t'
      | failed => failed
      end
  end.

Definition add (task : AddArg) (t : TaskTimer) : Result :=
  add_each (_ensureArray task) t.

Inductive RemoveArg : Type :=
| ByName (s : string)
| ByTask (k : Task.t).

(** [typeof task === 'string' ? task : task.name] *)
Definition target_name (arg : RemoveArg) : string :=
  match arg with
  | ByName s => s
  | ByTask k => Task.name k
  end.

(** [task.completed] for what the read found: a member of [Object.prototype]
    has no such property. *)
Definition member_completed (found : Member) : bool :=
  match found with
  | TaskOf task => Task.completed task
  | Inherited _ => false
  end.

(** [tasks[name] = null; delete tasks[name]], for a name the read has found.
    An own property is overwritten, and then deleted.  Otherwise the name is
    a member of the prototype: if it is a method, the write creates an own
    property that hides it, and [delete] removes that property again; if it
    is the accessor [__proto__], the write reaches its setter, which gives
    the registry the prototype [null], and there is nothing to delete. *)
Definition unset (name : string) (p : P.t) : P.t :=
  let reaches_setter :=
    match own_property name (P.tasks p) with
    | Some _ => false
    | None => P.proto p && String.eqb name "__proto__"
    end in
  P.with_proto (if reaches_setter then false else P.proto p)
    (P.with_tasks (delete name (P.tasks p)) p).

Definition remove (arg : RemoveArg) (t : TaskTimer) : Result :=
  let name := target_name arg in
  match get name t with
  | None => Throw (NotFound name) t
  | Some task =>
      if String.eqb name EmptyString then Throw (NotFound name) t
      else
        let t :=
          if member_completed task && (0 <? completedCount t)
          then update (fun p =>
                 P.with_completedCount (P.completedCount p - 1) p) t
          else t in
        let t := update (unset name) t in
        Ok (_emit EventType.TASK_REMOVED (Some task) t)
  end.

(** ** The tick handler *)

(** The closure [_tick] hands to [Task._run], called once the task has run. *)
Definition on_run (now : Z) (task : Task.t) (t : TaskTimer) : TaskTimer :=
  let t := update (fun p => P.with_runCount (P.runCount p + 1) p) t in
  let t := _emit EventType.TASK (Some (TaskOf task)) t in
  let t :=
    if Task.completed task then
      let t := update (fun p =>
        P.with_completedCount (P.completedCount p + 1) p) t in
      _emit EventType.TASK_COMPLETED (Some (TaskOf task)) t
    else t in
  if completedCount t =? taskCount t then
    let t := _emit EventType.COMPLETED None t in
    if stopOnCompleted t then stop now t else t
  else t.

(** Modelled from the spec: [Task._run(onRun)], missing with the class, as
    seen from the timer that owns the task under the key [name].  A task that
    may run has its callback invoked with itself, its bookkeeping done (the
    registry sees the change, it holds the same object), and then [onRun]
    called; otherwise nothing happens. *)
Definition Task_run (now : Z) (name : string) (task : Task.t)
    (onRun : Task.t -> TaskTimer -> TaskTimer) (t : TaskTimer) : TaskTimer :=
  if Task.can_run task then
    let t := record (Called (Task.callback task) task) t in
    let task := Task.record_run now task in
    let t := update (fun p =>
      P.with_tasks (assign name task (P.tasks p)) p) t in
    onRun task t
  else t.

(** The body of the [for (name in tasks)] loop.  The loop visits own
    properties, whose values are tasks; a value without a [tickInterval]
    would give the remainder [NaN] and be passed by. *)
Definition tick_task (now : Z) (t : TaskTimer) (name : string) : TaskTimer :=
  match get name t with
  | Some (TaskOf task) =>
      if is_zero (js_rem (tickCount t) (Task.tickInterval task))
      then Task_run now name task (on_run now) t
      else t
  | _ => t
  end.

Definition _tick (now : Z) (t : TaskTimer) : TaskTimer :=
  let t := fold_left (tick_task now) (keys (tasks t)) t in
  let t := update (fun p => P.with_tickCount (P.tickCount p + 1) p) t in
  _emit EventType.TICK None t.

(** The function [_run] passes to [setInterval]. *)
Definition on_interval (now : Z) (t : TaskTimer) : TaskTimer :=
  let t := _tick now t in
  update (P.with_state State.RUNNING) t.

(** One wakeup of the clock: the interval function runs if the timer is
    armed; a cleared timer never fires. *)
Definition wakeup (now : Z) (t : TaskTimer) : option TaskTimer :=
  match _timer t with
  | Some _ => Some (on_interval now t)
  | None => None
  end.

(** ** Vocabulary of the properties *)

(** Number of registered tasks whose [completed] flag is set. *)
Definition count_completed (l : Registry) : Z :=
  Z.of_nat (List.length (filter (fun kv => Task.completed (snd kv)) l)).

(** The bookkeeping invariant: [completedCount] counts the completed tasks. *)
Definition counts_agree (t : TaskTimer) : Prop :=
  completedCount t = count_completed (tasks t).

(** Aggregate completion: there is a task and every task is completed. *)
Definition all_completed (t : TaskTimer) : bool :=
  (0 <? taskCount t) &&
  forallb (fun kv => Task.completed (snd kv)) (tasks t).

Definition emitted (ty : EventType.t) (e : Effect) : bool :=
  match e with
  | Emitted ev => EventType.eqb (type ev) ty
  | Called _ _ => false
  end.

(** How many events of type [ty] a stretch of the trace holds. *)
Definition count_events (ty : EventType.t) (l : list Effect) : nat :=
  List.length (filter (emitted ty) l).

(** What [_tick] decides for a task on tick number [tick]: the test of the
    loop body followed by the guard of [Task._run]. *)
Definition runs_on (tick : Z) (k : Task.t) : bool :=
  is_zero (js_rem tick (Task.tickInterval k)) && Task.can_run k.


(** The task registered as [name] executes during the tick that takes [t] to
    [t']: its callback is called with it, and the registry holds it with one
    more run. *)
Definition executes (name : string) (t t' : TaskTimer) : Prop :=
  exists k k' before after,
    get name t = Some (TaskOf k) /\ get name t' = Some (TaskOf k') /\
    Task.currentRuns k' = Task.currentRuns k + 1 /\
    trace t' = trace t ++ before ++ Called (Task.callback k) k :: after.

(** [name] is the lowest unused name of the pattern task-N, N counted
    from 1. *)
Definition lowest_unused (name : string) (t : TaskTimer) : Prop :=
  exists n : nat,
    (1 <= n)%nat /\ name = task_name n /\ registered name t = false /\
    forall m : nat, (1 <= m < n)%nat -> registered (task_name m) t = true.

(** [name] is the first unused name of the pattern task-N above the number of
    registered tasks. *)
Definition first_unused_above_count (name : string) (t : TaskTimer) : Prop :=
  exists n : nat,
    (List.length (keys (tasks t)) < n)%nat /\ name = task_name n /\
    registered name t = false /\
    forall m : nat,
      (List.length (keys (tasks t)) < m < n)%nat ->
      registered (task_name m) t = true.

(** Whether the loop body runs the task registered as [name]. *)
Definition runs_now (t : TaskTimer) (name : string) : bool :=
  match get name t with
  | Some (TaskOf k) => runs_on (tickCount t) k
  | _ => false
  end.

(** ** Runs of the timer *)

(** What a client or the clock can do to an instance. *)
Inductive Op : Type :=
| Add (a : AddArg)
| Remove (r : RemoveArg)
| Start (now : Z)
| Pause
| Resume
| Stop (now : Z)
| Reset
| SetInterval (v : number)
| SetStopOnCompleted (b : bool)
| Wakeup (now : Z).

(** The instance a method leaves behind, whether it returned or threw. *)
Definition outcome (r : Result) (otherwise : TaskTimer) : TaskTimer :=
  match r with
  | Ok t => t
  | Throw _ t => t
  | Diverge => otherwise
  end.

Definition perform (op : Op) (t : TaskTimer) : TaskTimer :=
  match op with
  | Add a => outcome (add a t) t
  | Remove r => outcome (remove r t) t
  | Start now => start now t
  | Pause => pause t
  | Resume => resume t
  | Stop now => stop now t
  | Reset => reset t
  | SetInterval v => set_interval v t
  | SetStopOnCompleted b => set_stopOnCompleted b t
  | Wakeup now =>
      match wakeup now t with
      | Some t' => t'
      | None => t
      end
  end.

(** A run from a fresh instance: the operations are performed left to
    right. *)
Definition run (a : CtorArg) (ops : list Op) : TaskTimer :=
  fold_left (fun t op => perform op t) ops (new a).

(** The instances that runs can produce. *)
Inductive reachable : TaskTimer -> Prop :=
| reachable_new (a : CtorArg) : reachable (new a)
| reachable_step (op : Op) (t : TaskTimer) :
    reachable t -> reachable (perform op t).

(** The step from [t] to [t'] only adds to the trace, and adds no
    [completed] event. *)
Definition quiet (t t' : TaskTimer) : Prop :=
  exists new,
    trace t' = trace t ++ new /\
    count_events EventType.COMPLETED new = 0%nat.

(** The registry is a proper map: no name twice, every task under its own
    name, no empty name. *)
Definition registry_ok (t : TaskTimer) : Prop :=
  NoDup (keys (tasks t)) /\
  forall name k, In (name, k) (tasks t) ->
    Task.name k = name /\ name <> EmptyString.

(** The task [_add] registers for an input whose name is settled. *)
Definition task_for (name : string) (options : ITaskOptions + Task.t)
  : option Task.t :=
  match set_input_name name options with
  | inr k => Some k
  | inl o => Task.create o
  end.

(** [adds t t']: some successful calls of [_add] lead from [t] to [t']. *)
Inductive adds : TaskTimer -> TaskTimer -> Prop :=
| adds_none (t : TaskTimer) : adds t t
| adds_more (item : TaskInput) (t t1 t2 : TaskTimer) :
    _add item t = Ok t1 -> adds t1 t2 -> adds t t2.

(** The input is not a [Task] instance that is already completed. *)
Definition not_completed_yet (item : TaskInput) : Prop :=
  match item with
  | FromTask k => Task.completed k = false
  | _ => True
  end.

(** The operation hands no completed [Task] instance to [add]. *)
Definition adds_no_completed_task (op : Op) : Prop :=
  match op with
  | Add a => Forall not_completed_yet (_ensureArray a)
  | _ => True
  end.

(** Whether [on_run], called for the task [k] in [t], finds every task
    completed. *)
Definition completes (k : Task.t) (t : TaskTimer) : bool :=
  completedCount t + (if Task.completed k then 1 else 0) =? taskCount t.

(** ** Sample runs *)

(** Options for a task that completes after one run, and for one that never
    completes. *)
Definition once (name : string) : TaskInput :=
  FromOptions (mkTaskOptions (Some name) None (Some 1) None None (Some 0%nat)).

Definition forever (name : string) : TaskInput :=
  FromOptions (mkTaskOptions (Some name) None None None None (Some 0%nat)).

(** The task a after its single run. *)
Definition done_task : Task.t :=
  Task.mk "a" 1 1 None 1 true true 0%nat.

(** A timer that stops on completion, with one task of one run, started. *)
Definition auto_stop_run : list Op :=
  [SetStopOnCompleted true; Add (Single (once "a")); Start 0].

(** One task of one run, one tick; then the task is removed and the same
    [Task] instance is added again. *)
Definition one_tick_run : list Op :=
  [Add (Single (once "a")); Start 0; Wakeup 1000].

Definition readd_run : list Op :=
  one_tick_run ++
  [Remove (ByTask done_task); Add (Single (FromTask done_task))].

(** Two tasks, one of one run and one without limit, one tick. *)
Definition two_tasks_run : list Op :=
  [Add (Array [once "a"; forever "b"]); Start 0; Wakeup 1000].

(** The effects recorded after [t] on the way to a later [t']. *)
Definition since (t t' : TaskTimer) : list Effect :=
  skipn (List.length (trace t)) (trace t').

(** The aggregate event as the specification words it: whenever an operation
    of a run takes the timer into aggregate completion, that operation emits
    [completed] exactly once. *)
Definition completed_once_per_transition : Prop :=
  forall (a : CtorArg) (ops : list Op) (op : Op),
    all_completed (run a ops) = false ->
    all_completed (perform op (run a ops)) = true ->
    count_events EventType.COMPLETED
      (since (run a ops) (perform op (run a ops))) = 1%nat.

(** Name generation as the specification words it: in every run the generated
    name is the lowest unused one. *)
Definition auto_name_is_lowest_unused : Prop :=
  forall (a : CtorArg) (ops : list Op) (name : string),
    _getNewTaskName (run a ops) = Some name ->
    lowest_unused name (run a ops).

(** ** Further vocabulary *)

(** The record the [time] getter returns. *)
Record ITimeInfo : Type := mkTimeInfo {
  started : Z;
  stopped : Z;
  elapsed : Z
}.

(** The [time] getter, read at the moment [now]. *)
Definition time (now : Z) (t : TaskTimer) : ITimeInfo :=
  let current :=
    if negb (State.eqb (state t) State.STOPPED) then now
    else P.stopTime (priv t) in
  mkTimeInfo (P.startTime (priv t)) (P.stopTime (priv t))
             (current - P.startTime (priv t)).

Definition called (e : Effect) : bool :=
  match e with
  | Called _ _ => true
  | Emitted _ => false
  end.

(** How many callback invocations a stretch of the trace holds. *)
Definition count_calls (l : list Effect) : nat :=
  List.length (filter called l).

(** No registered task may run: each is disabled or completed. *)
Definition nothing_runnable (t : TaskTimer) : bool :=
  forallb (fun kv => negb (Task.can_run (snd kv))) (tasks t).

(** [completedCount] lies between 0 and the number of completed tasks. *)
Definition count_within (t : TaskTimer) : Prop :=
  0 <= completedCount t <= count_completed (tasks t).

(** The [taskAdded] event for a task, and its entry in the registry. *)
Definition added_event (k : Task.t) : Effect :=
  Emitted (mkEvent EventType.TASK_ADDED (Some (TaskOf k))).

Definition entry (k : Task.t) : string * Task.t := (Task.name k, k).

(** What [on_run] emits for the task [k] in the state [t]. *)
Definition on_run_effects (k : Task.t) (t : TaskTimer) : list Effect :=
  [Emitted (mkEvent EventType.TASK (Some (TaskOf k)))]
  ++ (if Task.completed k
      then [Emitted (mkEvent EventType.TASK_COMPLETED (Some (TaskOf k)))]
      else [])
  ++ (if completes k t
      then Emitted (mkEvent EventType.COMPLETED None)
           :: (if stopOnCompleted t && State.eqb (state t) State.RUNNING
               then [Emitted (mkEvent EventType.STOPPED None)] else [])
      else []).

(** The registry after the properties for the tasks [ks] are created one after
    the other, each under the name of its task. *)
Definition place_each (ks : list Task.t) (l : Registry) : Registry :=
  fold_left (fun reg k => place (Task.name k) k reg) ks l.

(** ** Tick counting *)

(** Case analysis on the test of the first conditional of the goal. *)
Ltac case_if :=
  match goal with
  | |- context [if ?b then _ else _] => destruct b eqn:?
  end.

Lemma tick_task_tickCount (now : Z) (t : TaskTimer) (name : string) :
  tickCount (tick_task now t name) = tickCount t.
Proof.
  unfold tick_task, Task_run, on_run, stop.
  destruct (get name t) as [[k|m]|]; try reflexivity.
  repeat (case_if; cbn; try reflexivity).
Qed.

Lemma tick_loop_tickCount (now : Z) (names : list string) (t : TaskTimer) :
  tickCount (fold_left (tick_task now) names t) = tickCount t.
Proof.
  revert t. induction names as [|n names IH]; intros t; cbn.
  - reflexivity.
  - rewrite IH. apply tick_task_tickCount.
Qed.

Lemma _tick_tickCount (now : Z) (t : TaskTimer) :
  tickCount (_tick now t) = tickCount t + 1.
Proof.
  unfold _tick. cbn.
  change (P.tickCount (priv ?x)) with (tickCount x).
  now rewrite tick_loop_tickCount.
Qed.

Lemma on_interval_tickCount (now : Z) (t : TaskTimer) :
  tickCount (on_interval now t) = tickCount t + 1.
Proof.
  unfold on_interval. cbn.
  change (P.tickCount (priv ?x)) with (tickCount x).
  apply _tick_tickCount.
Qed.

(** C5.  Every wakeup of an armed timer adds exactly 1 to [tickCount];
    [start] and [reset] set it to 0; [pause] followed by [resume] leaves it as
    it was. *)
Theorem tickCount_law (now : Z) (t : TaskTimer) :
  tickCount (on_interval now t) = tickCount t + 1 /\
  (forall t', wakeup now t = Some t' -> tickCount t' = tickCount t + 1) /\
  tickCount (start now t) = 0 /\
  tickCount (reset t) = 0 /\
  tickCount (resume (pause t)) = tickCount t.
Proof.
  pose proof (on_interval_tickCount now t) as H.
  repeat split; try reflexivity; try exact H.
  - unfold wakeup. destruct (_timer t); intros t' E; inversion E; subst.
    exact H.
  - unfold pause, resume.
    destruct (State.eqb (state t) State.RUNNING) eqn:E; cbn.
    + reflexivity.
    + destruct (State.eqb (state t) State.PAUSED); reflexivity.
Qed.

(** ** The interval setter *)

(** C9.  The setter stores a truthy value as it is and replaces a falsy one
    ([0], [NaN]) by the default interval of 1000 milliseconds; it touches
    nothing else. *)
Theorem set_interval_default (value : number) (t : TaskTimer) :
  interval (set_interval value t) =
    (if truthy value then value else Num 1000) /\
  interval (set_interval (Num 0) t) = Num 1000 /\
  interval (set_interval NaN t) = Num 1000 /\
  stopOnCompleted (set_interval value t) = stopOnCompleted t /\
  state (set_interval value t) = state t /\
  tasks (set_interval value t) = tasks t.
Proof.
  repeat split.
Qed.

(** ** Reset *)

(** C10.  [reset] keeps both options and clears the rest of the state: no
    tasks, all counters and timestamps 0, state idle, timer disarmed.  The
    only event it emits is [reset]. *)
Theorem reset_frame (t : TaskTimer) :
  interval (reset t) = interval t /\
  stopOnCompleted (reset t) = stopOnCompleted t /\
  tasks (reset t) = [] /\
  tickCount (reset t) = 0 /\
  runCount (reset t) = 0 /\
  P.startTime (priv (reset t)) = 0 /\
  P.stopTime (priv (reset t)) = 0 /\
  completedCount (reset t) = 0 /\
  state (reset t) = State.IDLE /\
  _timer (reset t) = None /\
  trace (reset t) = trace t ++ [Emitted (mkEvent EventType.RESET None)].
Proof.
  repeat split.
Qed.

(** ** Registry lemmas *)

Lemma own_in_keys (name : string) (l : Registry) (k : Task.t) :
  own_property name l = Some k -> In name (keys l).
Proof.
  induction l as [|[n v] l IH]; cbn; [discriminate|].
  destruct (String.eqb n name) eqn:E.
  - apply String.eqb_eq in E. now left.
  - intros H. right. now apply IH.
Qed.

Lemma own_not_in_keys (name : string) (l : Registry) :
  ~ In name (keys l) -> own_property name l = None.
Proof.
  induction l as [|[n v] l IH]; cbn; [reflexivity|].
  intros H. destruct (String.eqb n name) eqn:E.
  - apply String.eqb_eq in E. tauto.
  - apply IH. tauto.
Qed.

Lemma own_in (name : string) (l : Registry) (k : Task.t) :
  own_property name l = Some k -> In (name, k) l.
Proof.
  induction l as [|[n v] l IH]; cbn; [discriminate|].
  destruct (String.eqb n name) eqn:E.
  - apply String.eqb_eq in E. intros [= ->]. left. now subst.
  - intros H. right. now apply IH.
Qed.

Lemma own_delete (name : string) (l : Registry) :
  own_property name (delete name l) = None.
Proof.
  induction l as [|[n v] l IH]; cbn; [reflexivity|].
  destruct (String.eqb n name) eqn:E; cbn; [exact IH|].
  now rewrite E.
Qed.

Lemma own_app (name : string) (a b : Registry) :
  own_property name (a ++ b) =
    match own_property name a with
    | Some v => Some v
    | None => own_property name b
    end.
Proof.
  induction a as [|[n v] a IH]; cbn; [reflexivity|].
  destruct (String.eqb n name); [reflexivity|exact IH].
Qed.

Lemma own_replace_same (name : string) (k k0 : Task.t) (l : Registry) :
  own_property name l = Some k0 ->
  own_property name (replace name k l) = Some k.
Proof.
  induction l as [|[n v] l IH]; cbn; [discriminate|].
  destruct (String.eqb n name) eqn:E; cbn; rewrite E; [reflexivity|exact IH].
Qed.

Lemma own_replace_other (name other : string) (k : Task.t) (l : Registry) :
  other <> name -> own_property other (replace name k l) = own_property other l.
Proof.
  intros D. induction l as [|[n v] l IH]; cbn; [reflexivity|].
  destruct (String.eqb_spec n name) as [->|Dn]; cbn.
  - destruct (String.eqb_spec name other) as [->|_];
      [contradiction|reflexivity].
  - now rewrite IH.
Qed.

Lemma keys_replace (name : string) (k : Task.t) (l : Registry) :
  keys (replace name k l) = keys l.
Proof.
  induction l as [|[n v] l IH]; cbn; [reflexivity|].
  destruct (String.eqb n name); cbn; [reflexivity|].
  f_equal. exact IH.
Qed.

Lemma in_replace (name : string) (k : Task.t) (l : Registry)
    (kv : string * Task.t) :
  In kv (replace name k l) -> In kv l \/ kv = (name, k).
Proof.
  induction l as [|[n v] l IH]; cbn; [tauto|].
  destruct (String.eqb_spec n name) as [->|D]; cbn.
  - intros [<-|H]; [now right|left; now right].
  - intros [<-|H]; [left; now left|].
    destruct (IH H); [left; now right|now right].
Qed.

(** A new own property comes somewhere between the existing ones, which
    keep their order. *)
Lemma insert_index_split (i : N) (name : string) (k : Task.t) (l : Registry) :
  exists l1 l2,
    l = l1 ++ l2 /\ insert_index i name k l = l1 ++ (name, k) :: l2.
Proof.
  induction l as [|[n v] l IH]; cbn.
  - now exists [], [].
  - destruct (array_index n) as [j|].
    + destruct (j <? i)%N.
      * destruct IH as (l1 & l2 & -> & ->).
        now exists ((n, v) :: l1), l2.
      * now exists [], ((n, v) :: l).
    + now exists [], ((n, v) :: l).
Qed.

Lemma place_split (name : string) (k : Task.t) (l : Registry) :
  exists l1 l2, l = l1 ++ l2 /\ place name k l = l1 ++ (name, k) :: l2.
Proof.
  unfold place. destruct (array_index name) as [i|].
  - apply insert_index_split.
  - exists l, []. now rewrite app_nil_r.
Qed.

(** A name that is not an array index comes last. *)
Lemma place_last (name : string) (k : Task.t) (l : Registry) :
  array_index name = None -> place name k l = l ++ [(name, k)].
Proof.
  unfold place. now intros ->.
Qed.

Lemma own_place_same (name : string) (k : Task.t) (l : Registry) :
  own_property name l = None -> own_property name (place name k l) = Some k.
Proof.
  destruct (place_split name k l) as (l1 & l2 & -> & ->).
  rewrite !own_app. destruct (own_property name l1); [discriminate|].
  intros _. cbn. now rewrite String.eqb_refl.
Qed.

Lemma own_place_other (name other : string) (k : Task.t) (l : Registry) :
  other <> name -> own_property other (place name k l) = own_property other l.
Proof.
  intros D. destruct (place_split name k l) as (l1 & l2 & -> & ->).
  rewrite !own_app. destruct (own_property other l1); [reflexivity|].
  cbn. destruct (String.eqb_spec name other) as [->|_];
    [contradiction|reflexivity].
Qed.

Lemma in_place (name : string) (k : Task.t) (l : Registry)
    (kv : string * Task.t) :
  In kv (place name k l) <-> In kv l \/ kv = (name, k).
Proof.
  destruct (place_split name k l) as (l1 & l2 & -> & ->).
  rewrite !in_app_iff. cbn. intuition congruence.
Qed.

Lemma length_place (name : string) (k : Task.t) (l : Registry) :
  List.length (place name k l) = S (List.length l).
Proof.
  destruct (place_split name k l) as (l1 & l2 & -> & ->).
  rewrite !length_app. cbn. lia.
Qed.

Lemma NoDup_keys_place (name : string) (k : Task.t) (l : Registry) :
  own_property name l = None -> NoDup (keys l) -> NoDup (keys (place name k l)).
Proof.
  intros G. destruct (place_split name k l) as (l1 & l2 & E & ->).
  assert (Hnot : ~ In name (keys l)).
  { clear E. induction l as [|[n v] l IH]; cbn in *; [tauto|].
    destruct (String.eqb_spec n name) as [->|D]; [discriminate|].
    intros [H|H]; [contradiction|]. now apply IH. }
  subst l. unfold keys in *. rewrite !map_app in *. cbn.
  intros ND.
  apply NoDup_Add with (a := name) (l := map fst l1 ++ map fst l2).
  - apply Add_app.
  - split; assumption.
Qed.

Lemma delete_place (name : string) (k : Task.t) (l : Registry) :
  own_property name l = None -> delete name (place name k l) = l.
Proof.
  intros G. destruct (place_split name k l) as (l1 & l2 & E & ->).
  assert (Hd : delete name l = l).
  { clear E. unfold delete. induction l as [|[n v] l IH]; cbn in *;
      [reflexivity|].
    destruct (String.eqb_spec n name) as [->|D]; [discriminate|].
    cbn. f_equal. now apply IH. }
  subst l. unfold delete in *. rewrite filter_app in *. cbn.
  rewrite String.eqb_refl. cbn. exact Hd.
Qed.

Lemma own_assign_same (name : string) (k : Task.t) (l : Registry) :
  own_property name (assign name k l) = Some k.
Proof.
  unfold assign. destruct (own_property name l) eqn:G.
  - eapply own_replace_same, G.
  - now apply own_place_same.
Qed.

Lemma own_assign_other (name other : string) (k : Task.t) (l : Registry) :
  other <> name -> own_property other (assign name k l) = own_property other l.
Proof.
  intros D. unfold assign. destruct (own_property name l).
  - now apply own_replace_other.
  - now apply own_place_other.
Qed.

Lemma keys_assign_registered (name : string) (k k0 : Task.t) (l : Registry) :
  own_property name l = Some k0 -> keys (assign name k l) = keys l.
Proof.
  unfold assign. intros ->. apply keys_replace.
Qed.

Lemma assign_registered (name : string) (k k0 : Task.t) (l : Registry) :
  own_property name l = Some k0 -> assign name k l = replace name k l.
Proof.
  unfold assign. now intros ->.
Qed.

Lemma assign_fresh (name : string) (k : Task.t) (l : Registry) :
  own_property name l = None -> assign name k l = place name k l.
Proof.
  unfold assign. now intros ->.
Qed.

(** What a read finds. *)
Lemma get_task (name : string) (t : TaskTimer) (k : Task.t) :
  get name t = Some (TaskOf k) <-> own_property name (tasks t) = Some k.
Proof.
  unfold get, read, tasks. destruct (own_property name (P.tasks (priv t))).
  - split; intros [= ->]; reflexivity.
  - split; [|discriminate]. now destruct (P.proto (priv t) && inherited name).
Qed.

Lemma get_none (name : string) (t : TaskTimer) :
  get name t = None -> own_property name (tasks t) = None.
Proof.
  unfold get, read, tasks. now destruct (own_property name (P.tasks (priv t))).
Qed.

Lemma get_inherited (name member : string) (t : TaskTimer) :
  get name t = Some (Inherited member) ->
  member = name /\ own_property name (tasks t) = None /\
  P.proto (priv t) = true /\ inherited name = true.
Proof.
  unfold get, read, tasks. destruct (own_property name (P.tasks (priv t)));
    [discriminate|].
  destruct (P.proto (priv t)); [|discriminate]. cbn [andb].
  destruct (inherited name); [|discriminate].
  now intros [= <-].
Qed.

(** ** Adding under a name that is taken *)

(** C6.  In every state, [_add] of a task whose resolved name is registered
    throws the naming-conflict error and leaves the instance as it was: same
    registry, same trace (no event).  So does the public [add] called with
    that one task, bare or as a one-element array. *)
Theorem add_name_conflict (item : TaskInput) (t : TaskTimer) (name : string) :
  resolve_name (wrap item) t = Some name ->
  registered name t = true ->
  _add item t = Throw (NameConflict name) t /\
  add (Single item) t = Throw (NameConflict name) t /\
  add (Array [item]) t = Throw (NameConflict name) t.
Proof.
  intros R G.
  assert (H : _add item t = Throw (NameConflict name) t).
  { unfold _add. now rewrite R, G. }
  repeat split; [exact H| |]; cbn; now rewrite H.
Qed.

(** ** Removing a task *)

Lemma delete_unregistered (name : string) (l : Registry) :
  own_property name l = None -> delete name l = l.
Proof.
  unfold delete. induction l as [|[n v] l IH]; cbn; [reflexivity|].
  destruct (String.eqb_spec n name) as [->|D]; [discriminate|].
  intros G. cbn. f_equal. now apply IH.
Qed.

Lemma unset_registered (name : string) (k : Task.t) (p : P.t) :
  own_property name (P.tasks p) = Some k ->
  unset name p = P.with_tasks (delete name (P.tasks p)) p.
Proof.
  unfold unset. intros ->. now destruct p.
Qed.

(** Whatever the name, the own properties after [unset] are those left by
    [delete]; the other fields, the prototype apart, are untouched. *)
Lemma unset_tasks (name : string) (p : P.t) :
  P.tasks (unset name p) = delete name (P.tasks p).
Proof. reflexivity. Qed.

Lemma unset_frame (name : string) (p : P.t) :
  P.options (unset name p) = P.options p /\
  P.state (unset name p) = P.state p /\
  P.tickCount (unset name p) = P.tickCount p /\
  P.runCount (unset name p) = P.runCount p /\
  P.startTime (unset name p) = P.startTime p /\
  P.stopTime (unset name p) = P.stopTime p /\
  P.completedCount (unset name p) = P.completedCount p.
Proof. now repeat split. Qed.

(** [remove] either throws and changes nothing, or unsets the name, adjusts
    the count of completed tasks and emits [taskRemoved] with what the read
    found. *)
Lemma remove_cases (arg : RemoveArg) (t : TaskTimer) :
  (exists e, remove arg t = Throw e t) \/
  (exists found,
     get (target_name arg) t = Some found /\
     target_name arg <> EmptyString /\
     remove arg t =
       Ok (mkTimer
             (unset (target_name arg)
                (P.with_completedCount
                   (if member_completed found && (0 <? completedCount t)
                    then completedCount t - 1 else completedCount t)
                   (priv t)))
             (_timer t)
             (trace t ++
              [Emitted (mkEvent EventType.TASK_REMOVED (Some found))]))).
Proof.
  unfold remove.
  destruct (get (target_name arg) t) as [found|] eqn:G; [|left; eauto].
  destruct (String.eqb_spec (target_name arg) EmptyString) as [E|D];
    [left; eauto|].
  right. exists found. repeat split; [exact D|].
  destruct (member_completed found && (0 <? completedCount t)); reflexivity.
Qed.

(** What [remove] does for a registered task: [completedCount] goes down by
    one if the task is completed and the count is positive, and stays
    otherwise, so a non-negative count stays non-negative; the name is
    deleted from the registry; and the one new event is [taskRemoved]
    carrying the task. *)
Lemma remove_registered (arg : RemoveArg) (t : TaskTimer) (task : Task.t) :
  get (target_name arg) t = Some (TaskOf task) ->
  target_name arg <> EmptyString ->
  exists t',
    remove arg t = Ok t' /\
    completedCount t' =
      (if Task.completed task && (0 <? completedCount t)
       then completedCount t - 1 else completedCount t) /\
    (0 <= completedCount t -> 0 <= completedCount t') /\
    tasks t' = delete (target_name arg) (tasks t) /\
    own_property (target_name arg) (tasks t') = None /\
    trace t' =
      trace t ++
      [Emitted (mkEvent EventType.TASK_REMOVED (Some (TaskOf task)))].
Proof.
  intros G N.
  destruct (remove_cases arg t) as [[e E]|(found & G' & _ & E)].
  { unfold remove in E. rewrite G in E.
    destruct (String.eqb_spec (target_name arg) EmptyString);
      [contradiction|discriminate]. }
  rewrite G in G'. injection G' as <-.
  apply get_task in G.
  rewrite (unset_registered _ task) in E by exact G.
  eexists. split; [exact E|]. cbn.
  repeat split.
  - fold (completedCount t). case_if; [|auto].
    apply andb_prop in Heqb. destruct Heqb as [_ C].
    apply Z.ltb_lt in C. lia.
  - apply own_delete.
Qed.

(** What [remove] does for a name that no task is registered under but that
    [Object.prototype] has a method of: the read finds the method, so
    [remove] returns normally, changes nothing and emits [taskRemoved] with
    the method as data. *)
Lemma remove_inherited (arg : RemoveArg) (t : TaskTimer) :
  own_property (target_name arg) (tasks t) = None ->
  P.proto (priv t) = true ->
  inherited (target_name arg) = true ->
  target_name arg <> "__proto__"%string ->
  remove arg t =
    Ok (record (Emitted (mkEvent EventType.TASK_REMOVED
                           (Some (Inherited (target_name arg))))) t).
Proof.
  intros L Hp Hi Hn.
  assert (G : get (target_name arg) t = Some (Inherited (target_name arg))).
  { unfold get, read. unfold tasks in L. now rewrite L, Hp, Hi. }
  assert (D : target_name arg <> EmptyString).
  { intros E. rewrite E in Hi. discriminate. }
  destruct (remove_cases arg t) as [[e E]|(found & G' & _ & E)].
  { unfold remove in E. rewrite G in E.
    destruct (String.eqb_spec (target_name arg) EmptyString);
      [contradiction|discriminate]. }
  rewrite G in G'. injection G' as <-. rewrite E.
  unfold unset, record. cbn [P.tasks P.with_completedCount P.proto
    member_completed andb].
  unfold tasks in L. rewrite L, Hp, (delete_unregistered _ _ L).
  destruct (String.eqb_spec (target_name arg) "__proto__");
    [contradiction|].
  cbn [andb]. destruct t as [[o s l tc rc st sp cc pr] tm tr].
  cbn in Hp. subst pr. reflexivity.
Qed.

(** C7.  On a fresh timer no task is registered as toString, yet
    [remove] called with that name does not throw: the read of the registry
    finds the method every object inherits, so the call returns, leaves the
    registry and the counters as they are and emits [taskRemoved] with the
    method as its data. *)
Theorem remove_inherited_name_returns :
  own_property "toString" (tasks (new NoOptions)) = None /\
  taskCount (new NoOptions) = 0 /\
  get "toString" (new NoOptions) = Some (Inherited "toString") /\
  remove (ByName "toString") (new NoOptions) =
    Ok (mkTimer (priv (new NoOptions)) None
          [Emitted (mkEvent EventType.TASK_REMOVED
                      (Some (Inherited "toString")))]) /\
  remove (ByName "toString") (new NoOptions)
    <> Throw (NotFound "toString") (new NoOptions).
Proof.
  repeat split; try reflexivity. discriminate.
Qed.

(** ** Generated task names *)

Lemma string_of_nat_inj (n m : nat) :
  string_of_nat n = string_of_nat m -> n = m.
Proof.
  unfold string_of_nat. intros H.
  apply (f_equal NilEmpty.uint_of_string) in H.
  rewrite !NilEmpty.usu in H. injection H as H.
  apply (f_equal Nat.of_uint) in H.
  now rewrite !Unsigned.of_to in H.
Qed.

Lemma task_name_inj (n m : nat) : task_name n = task_name m -> n = m.
Proof.
  unfold task_name. cbn. intros H. injection H as H.
  now apply string_of_nat_inj.
Qed.

(** Generated names are neither members of [Object.prototype] nor array
    indices. *)
Lemma task_name_not_inherited (n : nat) : inherited (task_name n) = false.
Proof. reflexivity. Qed.

Lemma task_name_not_index (n : nat) : array_index (task_name n) = None.
Proof.
  unfold array_index, task_name. cbn [append NilEmpty.uint_of_string].
  unfold NilEmpty.uint_of_string at 1. fold NilEmpty.uint_of_string.
  now destruct (NilEmpty.uint_of_string _).
Qed.

Lemma registered_in_keys (name : string) (t : TaskTimer) :
  registered name t = true -> inherited name = false ->
  In name (keys (tasks t)).
Proof.
  unfold registered, get, read, tasks. intros R Hi.
  destruct (own_property name (P.tasks (priv t))) eqn:E.
  - eapply own_in_keys, E.
  - rewrite Hi, andb_false_r in R. discriminate.
Qed.

Lemma _getNewTaskName_loop_step (fuel num : nat) (t : TaskTimer) :
  _getNewTaskName_loop (S fuel) num t =
    if registered (task_name (S num)) t
    then _getNewTaskName_loop fuel (S num) t
    else Some (task_name (S num)).
Proof. reflexivity. Qed.

(** When the loop exits it returns the first free name after [num]. *)
Lemma _getNewTaskName_loop_some (fuel num : nat) (t : TaskTimer) (name : string) :
  _getNewTaskName_loop fuel num t = Some name ->
  exists n : nat,
    (num < n <= num + fuel)%nat /\ name = task_name n /\
    registered name t = false /\
    forall m : nat, (num < m < n)%nat -> registered (task_name m) t = true.
Proof.
  revert num. induction fuel as [|fuel IH]; intros num; [discriminate|].
  rewrite _getNewTaskName_loop_step.
  destruct (registered (task_name (S num)) t) eqn:R.
  - intros H. destruct (IH _ H) as (n & Hn & -> & Hfree & Hbelow).
    exists n. repeat split; try lia; try assumption.
    intros m Hm. destruct (Nat.eq_dec m (S num)) as [->|D]; [exact R|].
    apply Hbelow. lia.
  - intros [= <-]. exists (S num). repeat split; try lia; try assumption.
Qed.

(** When the fuel runs out every name tried was taken. *)
Lemma _getNewTaskName_loop_none (fuel num : nat) (t : TaskTimer) :
  _getNewTaskName_loop fuel num t = None ->
  forall m : nat, (num < m <= num + fuel)%nat ->
    registered (task_name m) t = true.
Proof.
  revert num. induction fuel as [|fuel IH]; intros num.
  - intros _ m Hm. lia.
  - rewrite _getNewTaskName_loop_step.
    destruct (registered (task_name (S num)) t) eqn:R; [|discriminate].
    intros H m Hm. destruct (Nat.eq_dec m (S num)) as [->|D]; [exact R|].
    apply (IH _ H). lia.
Qed.

(** The loop of [_getNewTaskName] exits: among the [n + 1] names after
    task-[n] at most [n] are registered. *)
Lemma _getNewTaskName_terminates (t : TaskTimer) :
  exists name, _getNewTaskName t = Some name.
Proof.
  unfold _getNewTaskName.
  set (n := List.length (keys (tasks t))).
  destruct (_getNewTaskName_loop (S n) n t) as [name|] eqn:E.
  - now exists name.
  - exfalso.
    pose proof (_getNewTaskName_loop_none _ _ _ E) as Hall.
    assert (Hnd : NoDup (map task_name (seq (S n) (S n)))).
    { apply Injective_map_NoDup; [|apply seq_NoDup].
      intros a b. apply task_name_inj. }
    assert (Hin : incl (map task_name (seq (S n) (S n))) (keys (tasks t))).
    { intros s Hs. apply in_map_iff in Hs. destruct Hs as (m & <- & Hm).
      apply in_seq in Hm.
      apply registered_in_keys; [|apply task_name_not_inherited].
      apply Hall. lia. }
    pose proof (NoDup_incl_length Hnd Hin) as L.
    rewrite length_map, length_seq in L. fold n in L. lia.
Qed.

Lemma _getNewTaskName_spec (t : TaskTimer) :
  exists name,
    _getNewTaskName t = Some name /\ first_unused_above_count name t.
Proof.
  destruct (_getNewTaskName_terminates t) as [name E].
  exists name. split; [exact E|].
  unfold _getNewTaskName in E.
  apply _getNewTaskName_loop_some in E.
  destruct E as (n & Hn & -> & Hfree & Hbelow).
  exists n. repeat split; try lia; assumption.
Qed.

(** C8, as the specification words it, fails: with one task registered under
    the name foo, a bare callback is added as task-2 although task-1 is
    free. *)
Lemma auto_name_not_lowest :
  keys (tasks (run NoOptions [Add (Single (forever "foo"))])) = ["foo"%string] /\
  registered "task-1" (run NoOptions [Add (Single (forever "foo"))]) = false /\
  _getNewTaskName (run NoOptions [Add (Single (forever "foo"))])
    = Some "task-2"%string /\
  keys (tasks (run NoOptions [Add (Single (forever "foo"));
                              Add (Single (FromCallback 1%nat))]))
    = ["foo"; "task-2"]%string /\
  ~ lowest_unused "task-2" (run NoOptions [Add (Single (forever "foo"))]) /\
  ~ auto_name_is_lowest_unused.
Proof.
  assert (N : ~ lowest_unused "task-2"
                (run NoOptions [Add (Single (forever "foo"))])).
  { intros (n & Hn & E & _ & Hbelow).
    change "task-2"%string with (task_name 2) in E.
    apply task_name_inj in E. subst n.
    specialize (Hbelow 1%nat ltac:(lia)).
    vm_compute in Hbelow. discriminate. }
  repeat split; try reflexivity; try exact N.
  intros H. apply N. now apply H.
Qed.

(** C8, amended.  A task added without a name (a bare callback, or options or
    a task whose name is missing or empty) gets the name task-N for the
    smallest N above the current number of registered tasks for which task-N
    is free; the loop that finds it always exits; and when the addition
    succeeds the task is registered last, under that name. *)
Theorem auto_name_first_above_count (item : TaskInput) (t : TaskTimer) :
  no_name (input_name (wrap item)) = true ->
  exists name,
    resolve_name (wrap item) t = Some name /\
    first_unused_above_count name t /\
    _add item t <> Diverge /\
    forall t',
      _add item t = Ok t' ->
      exists task,
        Task.name task = name /\
        tasks t' = tasks t ++ [(name, task)].
Proof.
  intros Hno.
  destruct (_getNewTaskName_spec t) as (name & E & Hfirst).
  exists name.
  assert (R : resolve_name (wrap item) t = Some name).
  { unfold resolve_name. now rewrite Hno. }
  assert (Hfree : registered name t = false).
  { destruct Hfirst as (n & _ & _ & F & _). exact F. }
  assert (L : own_property name (tasks t) = None).
  { unfold registered in Hfree. apply get_none.
    now destruct (get name t). }
  assert (Hidx : array_index name = None).
  { destruct Hfirst as (n & _ & -> & _). apply task_name_not_index. }
  repeat split; try assumption.
  - unfold _add. rewrite R, Hfree.
    destruct (set_input_name name (wrap item)) as [o|k];
      [destruct (Task.create o)|]; discriminate.
  - intros t'. unfold _add. rewrite R, Hfree.
    destruct (wrap item) as [o|k]; cbn.
    + unfold Task.create. cbn.
      destruct (opt_callback o) as [cb|]; [|discriminate].
      intros [= <-]. eexists. split; cycle 1.
      * cbn. rewrite assign_fresh by exact L.
        rewrite place_last by exact Hidx. reflexivity.
      * reflexivity.
    + intros [= <-]. eexists. split; cycle 1.
      * cbn. rewrite assign_fresh by exact L.
        rewrite place_last by exact Hidx. reflexivity.
      * reflexivity.
Qed.

Lemma auto_name_first_above_count_witness :
  no_name (input_name (wrap (FromCallback 1%nat))) = true /\
  exists name,
    resolve_name (wrap (FromCallback 1%nat)) (new NoOptions) = Some name /\
    first_unused_above_count name (new NoOptions) /\
    _add (FromCallback 1%nat) (new NoOptions) <> Diverge /\
    forall t',
      _add (FromCallback 1%nat) (new NoOptions) = Ok t' ->
      exists task,
        Task.name task = name /\
        tasks t' = tasks (new NoOptions) ++ [(name, task)].
Proof.
  split; [reflexivity|].
  apply (auto_name_first_above_count (FromCallback 1%nat) (new NoOptions)).
  reflexivity.
Defined.

(** ** One task in one tick *)

Lemma tick_task_skip (now : Z) (t : TaskTimer) (name : string) :
  runs_now t name = false -> tick_task now t name = t.
Proof.
  unfold runs_now, runs_on, tick_task, Task_run.
  destruct (get name t) as [[k|m]|]; try reflexivity.
  destruct (is_zero _); [|reflexivity].
  cbn. now intros ->.
Qed.

Lemma tick_task_run (now : Z) (t : TaskTimer) (name : string) (k : Task.t) :
  own_property name (tasks t) = Some k -> runs_on (tickCount t) k = true ->
  tick_task now t name =
    on_run now (Task.record_run now k)
      (update (fun p =>
         P.with_tasks (assign name (Task.record_run now k) (P.tasks p)) p)
         (record (Called (Task.callback k) k) t)).
Proof.
  unfold runs_on, tick_task, Task_run. intros G H.
  apply get_task in G. rewrite G.
  apply andb_prop in H. destruct H as [-> ->]. reflexivity.
Qed.

Lemma on_run_tasks (now : Z) (k : Task.t) (t : TaskTimer) :
  tasks (on_run now k t) = tasks t.
Proof.
  unfold on_run, stop. repeat (case_if; cbn; try reflexivity).
Qed.

Lemma on_run_completedCount (now : Z) (k : Task.t) (t : TaskTimer) :
  completedCount (on_run now k t) =
    completedCount t + (if Task.completed k then 1 else 0).
Proof.
  unfold on_run, stop, completedCount.
  repeat (case_if; cbn; try reflexivity; try lia).
Qed.

Lemma on_run_trace (now : Z) (k : Task.t) (t : TaskTimer) :
  exists rest,
    trace (on_run now k t) =
      trace t ++ Emitted (mkEvent EventType.TASK (Some (TaskOf k))) :: rest /\
    count_events EventType.COMPLETED rest =
      (if completedCount t + (if Task.completed k then 1 else 0)
          =? taskCount t then 1%nat else 0%nat).
Proof.
  unfold on_run, stop, completedCount, taskCount.
  destruct (Task.completed k); cbn.
  - destruct (_ =? _) eqn:E; cbn.
    + repeat (case_if; cbn); rewrite <- !app_assoc; cbn;
        eexists; (split; [reflexivity|]); reflexivity.
    + rewrite <- !app_assoc. cbn. eexists. split; reflexivity.
  - rewrite Z.add_0_r. destruct (_ =? _) eqn:E; cbn.
    + repeat (case_if; cbn); rewrite <- ?app_assoc; cbn;
        eexists; (split; [reflexivity|]); reflexivity.
    + eexists. split; reflexivity.
Qed.

Lemma runs_now_get (t : TaskTimer) (name : string) :
  runs_now t name = true ->
  exists k,
    own_property name (tasks t) = Some k /\ runs_on (tickCount t) k = true.
Proof.
  unfold runs_now. destruct (get name t) as [[k|m]|] eqn:G; try discriminate.
  intros H. exists k. split; [now apply get_task|exact H].
Qed.

Lemma tick_task_get_other (now : Z) (t : TaskTimer) (name other : string) :
  other <> name ->
  own_property other (tasks (tick_task now t name)) =
    own_property other (tasks t).
Proof.
  intros D. destruct (runs_now t name) eqn:R.
  - destruct (runs_now_get _ _ R) as (k & G & Hk).
    rewrite (tick_task_run now _ _ _ G Hk).
    rewrite on_run_tasks. cbn.
    now apply own_assign_other.
  - now rewrite tick_task_skip.
Qed.

Lemma tick_task_get_self (now : Z) (t : TaskTimer) (name : string) (k : Task.t) :
  own_property name (tasks t) = Some k ->
  own_property name (tasks (tick_task now t name)) =
    Some (if runs_on (tickCount t) k then Task.record_run now k else k).
Proof.
  intros G. destruct (runs_on (tickCount t) k) eqn:R.
  - rewrite (tick_task_run now _ _ _ G R).
    rewrite on_run_tasks. cbn.
    apply own_assign_same.
  - rewrite tick_task_skip; [exact G|]. unfold runs_now.
    now rewrite (proj2 (get_task _ _ _) G).
Qed.

Lemma tick_task_proto (now : Z) (t : TaskTimer) (name : string) :
  P.proto (priv (tick_task now t name)) = P.proto (priv t).
Proof.
  unfold tick_task, Task_run, on_run, stop.
  destruct (get name t) as [[k|m]|]; try reflexivity.
  repeat (case_if; cbn; try reflexivity).
Qed.

Lemma tick_task_keys (now : Z) (t : TaskTimer) (name : string) :
  keys (tasks (tick_task now t name)) = keys (tasks t).
Proof.
  destruct (runs_now t name) eqn:R.
  - destruct (runs_now_get _ _ R) as (k & G & Hk).
    rewrite (tick_task_run now _ _ _ G Hk), on_run_tasks. cbn.
    eapply keys_assign_registered, G.
  - now rewrite tick_task_skip.
Qed.

(** What a task that runs adds to the trace: the call, the [task] event, and
    whatever [on_run] emits after it. *)
Lemma tick_task_run_trace (now : Z) (t : TaskTimer) (name : string) (k : Task.t) :
  own_property name (tasks t) = Some k -> runs_on (tickCount t) k = true ->
  exists rest,
    trace (tick_task now t name) =
      trace t ++ Called (Task.callback k) k
              :: Emitted (mkEvent EventType.TASK
                            (Some (TaskOf (Task.record_run now k)))) :: rest.
Proof.
  intros G R. rewrite (tick_task_run now _ _ _ G R).
  match goal with |- context [on_run now ?a ?b] =>
    destruct (on_run_trace now a b) as (rest & -> & _) end.
  cbn. rewrite <- app_assoc. cbn. now exists rest.
Qed.

Lemma tick_task_trace (now : Z) (t : TaskTimer) (name : string) :
  exists new, trace (tick_task now t name) = trace t ++ new.
Proof.
  destruct (runs_now t name) eqn:R.
  - destruct (runs_now_get _ _ R) as (k & G & Hk).
    destruct (tick_task_run_trace now _ _ _ G Hk) as (rest & ->).
    eexists. reflexivity.
  - rewrite tick_task_skip by exact R. exists []. now rewrite app_nil_r.
Qed.

(** ** The loop over the registry *)

Lemma tick_loop_trace (now : Z) (names : list string) (t : TaskTimer) :
  exists new, trace (fold_left (tick_task now) names t) = trace t ++ new.
Proof.
  revert t. induction names as [|n names IH]; intros t; cbn.
  - exists []. now rewrite app_nil_r.
  - destruct (IH (tick_task now t n)) as (new2 & ->).
    destruct (tick_task_trace now t n) as (new1 & ->).
    exists (new1 ++ new2). now rewrite app_assoc.
Qed.

Lemma tick_loop_get_absent (now : Z) (names : list string) (t : TaskTimer)
    (name : string) :
  ~ In name names ->
  own_property name (tasks (fold_left (tick_task now) names t)) =
    own_property name (tasks t).
Proof.
  revert t. induction names as [|n names IH]; intros t H; cbn.
  - reflexivity.
  - rewrite IH by (cbn in H; tauto).
    apply tick_task_get_other. cbn in H. intros ->. tauto.
Qed.

Lemma tick_loop_get (now : Z) (names : list string) (t : TaskTimer)
    (name : string) (k : Task.t) :
  NoDup names -> In name names -> own_property name (tasks t) = Some k ->
  own_property name (tasks (fold_left (tick_task now) names t)) =
    Some (if runs_on (tickCount t) k then Task.record_run now k else k) /\
  (runs_on (tickCount t) k = true ->
   exists before after,
     trace (fold_left (tick_task now) names t) =
       trace t ++ before ++ Called (Task.callback k) k :: after).
Proof.
  revert t. induction names as [|n names IH]; intros t ND HIn G.
  - destruct HIn.
  - inversion ND as [|? ? Hnot ND']; subst. cbn.
    destruct (String.eqb n name) eqn:E.
    + apply String.eqb_eq in E. subst n. split.
      * rewrite tick_loop_get_absent by exact Hnot.
        now apply tick_task_get_self.
      * intros R.
        destruct (tick_loop_trace now names (tick_task now t name))
          as (new2 & ->).
        destruct (tick_task_run_trace now _ _ _ G R) as (rest & ->).
        exists [], (Emitted (mkEvent EventType.TASK
                      (Some (TaskOf (Task.record_run now k)))) :: rest ++ new2).
        cbn. rewrite <- app_assoc. reflexivity.
    + assert (D : name <> n).
      { intros ->. rewrite String.eqb_refl in E. discriminate. }
      assert (HIn' : In name names) by (destruct HIn; congruence).
      assert (G' : own_property name (tasks (tick_task now t n)) = Some k).
      { rewrite tick_task_get_other; assumption. }
      destruct (IH _ ND' HIn' G') as [Hget Htrace].
      rewrite tick_task_tickCount in Hget, Htrace.
      split; [exact Hget|].
      intros R. destruct (Htrace R) as (before & after & ->).
      destruct (tick_task_trace now t n) as (new1 & ->).
      exists (new1 ++ before), after. now rewrite <- !app_assoc.
Qed.

(** ** The eligibility law *)

Lemma _tick_trace (now : Z) (t : TaskTimer) :
  trace (_tick now t) =
    trace (fold_left (tick_task now) (keys (tasks t)) t)
    ++ [Emitted (mkEvent EventType.TICK None)].
Proof. reflexivity. Qed.

Lemma _tick_tasks (now : Z) (t : TaskTimer) :
  tasks (_tick now t) = tasks (fold_left (tick_task now) (keys (tasks t)) t).
Proof. reflexivity. Qed.



(** ** Counting completed tasks *)

Lemma taskCount_length (t : TaskTimer) :
  taskCount t = Z.of_nat (List.length (tasks t)).
Proof.
  unfold taskCount, keys. now rewrite length_map.
Qed.

Lemma count_completed_cons (n : string) (k : Task.t) (l : Registry) :
  count_completed ((n, k) :: l) =
    (if Task.completed k then 1 else 0) + count_completed l.
Proof.
  unfold count_completed. cbn. destruct (Task.completed k); cbn [List.length].
  - lia.
  - lia.
Qed.

Lemma count_completed_bounds (l : Registry) :
  0 <= count_completed l <= Z.of_nat (List.length l).
Proof.
  induction l as [|[n k] l IH].
  - cbn. lia.
  - rewrite count_completed_cons. cbn [List.length].
    destruct (Task.completed k); lia.
Qed.

Lemma forallb_count_completed (l : Registry) :
  forallb (fun kv => Task.completed (snd kv)) l =
    (count_completed l =? Z.of_nat (List.length l)).
Proof.
  induction l as [|[n k] l IH].
  - reflexivity.
  - rewrite count_completed_cons. cbn [forallb snd List.length].
    pose proof (count_completed_bounds l) as B.
    destruct (Task.completed k); cbn [andb].
    + rewrite IH. destruct (Z.eqb_spec (count_completed l)
                              (Z.of_nat (List.length l)));
        symmetry; [apply Z.eqb_eq|apply Z.eqb_neq]; lia.
    + symmetry. apply Z.eqb_neq. lia.
Qed.

Lemma all_completed_count (t : TaskTimer) :
  all_completed t =
    (0 <? taskCount t) && (count_completed (tasks t) =? taskCount t).
Proof.
  unfold all_completed. now rewrite forallb_count_completed, taskCount_length.
Qed.

Lemma count_completed_assign (n : string) (k k' : Task.t) (l : Registry) :
  own_property n l = Some k -> Task.completed k = false ->
  count_completed (assign n k' l) =
    count_completed l + (if Task.completed k' then 1 else 0).
Proof.
  intros G. rewrite (assign_registered _ _ _ _ G). revert G.
  induction l as [|[m v] l IH]; cbn [own_property replace]; [discriminate|].
  destruct (String.eqb m n).
  - intros [= ->] C. rewrite !count_completed_cons, C. lia.
  - intros G C. rewrite !count_completed_cons, IH by assumption. lia.
Qed.

Lemma count_completed_incomplete (n : string) (k : Task.t) (l : Registry) :
  own_property n l = Some k -> Task.completed k = false ->
  count_completed l < Z.of_nat (List.length l).
Proof.
  induction l as [|[m v] l IH]; cbn [own_property]; [discriminate|].
  pose proof (count_completed_bounds l) as B.
  rewrite count_completed_cons. cbn [List.length].
  destruct (String.eqb m n).
  - intros [= ->] ->. lia.
  - intros G C. specialize (IH G C). destruct (Task.completed v); lia.
Qed.

Lemma count_events_app (ty : EventType.t) (a b : list Effect) :
  count_events ty (a ++ b) = (count_events ty a + count_events ty b)%nat.
Proof.
  unfold count_events. now rewrite filter_app, length_app.
Qed.

(** ** The aggregate event within a tick *)

Lemma tick_task_run_events (now : Z) (t : TaskTimer) (name : string)
    (k : Task.t) :
  own_property name (tasks t) = Some k -> runs_on (tickCount t) k = true ->
  exists new,
    trace (tick_task now t name) = trace t ++ new /\
    count_events EventType.COMPLETED new =
      (if completedCount t
            + (if Task.completed (Task.record_run now k) then 1 else 0)
          =? taskCount t then 1%nat else 0%nat).
Proof.
  intros G R. rewrite (tick_task_run now _ _ _ G R).
  match goal with |- context [on_run now ?a ?b] =>
    destruct (on_run_trace now a b) as (rest & -> & Hc) end.
  exists ([Called (Task.callback k) k;
           Emitted (mkEvent EventType.TASK
                      (Some (TaskOf (Task.record_run now k))))]
          ++ rest).
  split.
  - cbn [trace update record]. rewrite <- app_assoc. reflexivity.
  - rewrite count_events_app, Hc. cbn [count_events filter emitted type
      EventType.eqb List.length Nat.add].
    replace (taskCount (update _ _)) with (taskCount t); [reflexivity|].
    unfold taskCount. cbn.
    symmetry. f_equal. f_equal. eapply keys_assign_registered, G.
Qed.

Lemma all_completed_nothing_runs (t : TaskTimer) (name : string) :
  all_completed t = true -> runs_now t name = false.
Proof.
  intros A. destruct (runs_now t name) eqn:R; [|reflexivity].
  destruct (runs_now_get _ _ R) as (k & G & Hk).
  unfold runs_on, Task.can_run in Hk.
  rewrite !andb_true_iff, negb_true_iff in Hk. destruct Hk as (_ & _ & C).
  pose proof (count_completed_incomplete _ _ _ G C) as L.
  rewrite all_completed_count, taskCount_length in A.
  apply andb_prop in A. destruct A as [_ A]. apply Z.eqb_eq in A. lia.
Qed.

Lemma tick_task_aggregate (now : Z) (t : TaskTimer) (name : string) :
  counts_agree t ->
  counts_agree (tick_task now t name) /\
  (all_completed t = true -> tick_task now t name = t) /\
  exists new,
    trace (tick_task now t name) = trace t ++ new /\
    count_events EventType.COMPLETED new =
      (if negb (all_completed t) && all_completed (tick_task now t name)
       then 1%nat else 0%nat).
Proof.
  intros Hc. destruct (runs_now t name) eqn:R.
  - destruct (runs_now_get _ _ R) as (k & G & Hk).
    assert (C : Task.completed k = false).
    { unfold runs_on, Task.can_run in Hk.
      rewrite !andb_true_iff, negb_true_iff in Hk. tauto. }
    assert (A : all_completed t = false).
    { destruct (all_completed t) eqn:A; [|reflexivity].
      rewrite (all_completed_nothing_runs _ name A) in R. discriminate. }
    destruct (tick_task_run_events now _ _ _ G Hk) as (new & Htr & Hcount).
    set (k' := Task.record_run now k) in *.
    assert (Ht : tasks (tick_task now t name) = assign name k' (tasks t)).
    { rewrite (tick_task_run now _ _ _ G Hk), on_run_tasks. reflexivity. }
    assert (Hcc : completedCount (tick_task now t name) =
              completedCount t + (if Task.completed k' then 1 else 0)).
    { rewrite (tick_task_run now _ _ _ G Hk), on_run_completedCount.
      reflexivity. }
    assert (Hagree : counts_agree (tick_task now t name)).
    { unfold counts_agree. rewrite Hcc, Ht.
      rewrite (count_completed_assign _ _ _ _ G C). now rewrite Hc. }
    assert (Htc : taskCount (tick_task now t name) = taskCount t).
    { unfold taskCount. now rewrite tick_task_keys. }
    assert (Hpos : 0 < taskCount t).
    { rewrite taskCount_length.
      pose proof (count_completed_incomplete _ _ _ G C).
      pose proof (count_completed_bounds (tasks t)). lia. }
    split; [exact Hagree|]. split; [congruence|].
    exists new. split; [exact Htr|].
    rewrite Hcount, A. cbn [negb andb].
    rewrite all_completed_count, Htc, <- Hagree, Hcc.
    apply Z.ltb_lt in Hpos. now rewrite Hpos.
  - rewrite tick_task_skip by exact R.
    split; [exact Hc|]. split; [reflexivity|].
    exists []. rewrite app_nil_r. split; [reflexivity|].
    now destruct (all_completed t).
Qed.

Lemma tick_loop_aggregate (now : Z) (names : list string) (t : TaskTimer) :
  counts_agree t ->
  counts_agree (fold_left (tick_task now) names t) /\
  (all_completed t = true -> fold_left (tick_task now) names t = t) /\
  exists new,
    trace (fold_left (tick_task now) names t) = trace t ++ new /\
    count_events EventType.COMPLETED new =
      (if negb (all_completed t) &&
          all_completed (fold_left (tick_task now) names t)
       then 1%nat else 0%nat).
Proof.
  revert t. induction names as [|n names IH]; intros t Hc.
  - cbn [fold_left]. split; [exact Hc|]. split; [reflexivity|].
    exists []. rewrite app_nil_r. split; [reflexivity|].
    now destruct (all_completed t).
  - cbn [fold_left].
    destruct (tick_task_aggregate now t n Hc)
      as (Hc1 & Hstay1 & new1 & Htr1 & Hn1).
    destruct (IH _ Hc1) as (Hc2 & Hstay2 & new2 & Htr2 & Hn2).
    split; [exact Hc2|]. split.
    + intros A. rewrite (Hstay1 A) in *. now apply Hstay2.
    + exists (new1 ++ new2). split.
      * rewrite Htr2, Htr1. now rewrite app_assoc.
      * rewrite count_events_app, Hn1, Hn2.
        destruct (all_completed t) eqn:A.
        { rewrite (Hstay1 eq_refl), A. reflexivity. }
        destruct (all_completed (tick_task now t n)) eqn:A1.
        { rewrite (Hstay2 eq_refl), A1. reflexivity. }
        cbn [negb andb]. now destruct (all_completed _).
Qed.

(** A whole wakeup: the loop, the tick count, the [tick] event, the state. *)
Lemma on_interval_aggregate (now : Z) (t : TaskTimer) :
  counts_agree t ->
  counts_agree (on_interval now t) /\
  exists new,
    trace (on_interval now t) = trace t ++ new /\
    count_events EventType.COMPLETED new =
      (if negb (all_completed t) && all_completed (on_interval now t)
       then 1%nat else 0%nat).
Proof.
  intros Hc.
  destruct (tick_loop_aggregate now (keys (tasks t)) t Hc)
    as (Hc' & _ & new & Htr & Hn).
  split; [exact Hc'|].
  exists (new ++ [Emitted (mkEvent EventType.TICK None)]). split.
  - change (trace (on_interval now t)) with (trace (_tick now t)).
    rewrite _tick_trace, Htr. now rewrite app_assoc.
  - rewrite count_events_app, Hn. cbn. rewrite Nat.add_0_r. reflexivity.
Qed.

(** ** What the registry operations do *)

Lemma task_for_name (name : string) (options : ITaskOptions + Task.t)
    (task : Task.t) :
  task_for name options = Some task -> Task.name task = name.
Proof.
  unfold task_for. destruct options as [o|k]; cbn.
  - unfold Task.create. cbn. destruct (opt_callback o); [|discriminate].
    now intros [= <-].
  - now intros [= <-].
Qed.

Lemma task_for_completed (name : string) (o : ITaskOptions) (task : Task.t) :
  task_for name (inl o) = Some task -> Task.completed task = false.
Proof.
  unfold task_for, Task.create. cbn. destruct (opt_callback o); [|discriminate].
  now intros [= <-].
Qed.

Lemma resolve_name_not_empty (options : ITaskOptions + Task.t) (t : TaskTimer)
    (name : string) :
  resolve_name options t = Some name -> name <> EmptyString.
Proof.
  unfold resolve_name. destruct (no_name (input_name options)) eqn:N.
  - intros E. unfold _getNewTaskName in E.
    apply _getNewTaskName_loop_some in E.
    destruct E as (n & _ & -> & _). discriminate.
  - intros E. rewrite E in N. cbn in N. intros ->. discriminate.
Qed.

(** [_add] either throws and changes nothing, or creates the property for the
    task in the registry and emits [taskAdded]; it always returns. *)
Lemma _add_cases (item : TaskInput) (t : TaskTimer) :
  (exists e, _add item t = Throw e t) \/
  (exists name task,
     resolve_name (wrap item) t = Some name /\
     registered name t = false /\
     task_for name (wrap item) = Some task /\
     _add item t =
       Ok (mkTimer (P.with_tasks (place name task (tasks t)) (priv t))
                   (_timer t)
                   (trace t ++
                    [Emitted (mkEvent EventType.TASK_ADDED
                                (Some (TaskOf task)))]))).
Proof.
  unfold _add.
  destruct (resolve_name (wrap item) t) as [name|] eqn:R.
  - destruct (registered name t) eqn:G; [left; eauto|].
    fold (task_for name (wrap item)).
    destruct (task_for name (wrap item)) as [task|] eqn:T; [|left; eauto].
    right. exists name, task. repeat split; try assumption.
    rewrite (task_for_name _ _ _ T).
    unfold update, _emit, record. cbn [priv _timer trace P.tasks].
    rewrite assign_fresh; [reflexivity|].
    apply get_none. unfold registered in G.
    now destruct (get name t).
  - exfalso. unfold resolve_name in R.
    destruct (no_name (input_name (wrap item))) eqn:N.
    + destruct (_getNewTaskName_terminates t) as [n E]. congruence.
    + rewrite R in N. discriminate.
Qed.

(** ** Arrays of tasks *)

Lemma add_each_returns (l : list TaskInput) (t : TaskTimer) :
  add_each l t <> Diverge.
Proof.
  revert t. induction l as [|item l IH]; intros t; cbn; [discriminate|].
  destruct (_add_cases item t) as [[e E]|(name & task & _ & _ & _ & E)];
    rewrite E; [discriminate|apply IH].
Qed.

Lemma outcome_returned (r : Result) (a b : TaskTimer) :
  r <> Diverge -> outcome r a = outcome r b.
Proof.
  destruct r; cbn; congruence.
Qed.

Lemma add_each_adds (l : list TaskInput) (t : TaskTimer) :
  adds t (outcome (add_each l t) t).
Proof.
  revert t. induction l as [|item l IH]; intros t; cbn.
  - constructor.
  - destruct (_add_cases item t) as [[e E]|(name & task & _ & _ & _ & E)];
      rewrite E; cbn.
    + constructor.
    + eapply adds_more; [exact E|].
      erewrite outcome_returned by apply add_each_returns. apply IH.
Qed.

(** The same, keeping track of the inputs that were added. *)
Lemma add_each_adds_fresh (l : list TaskInput) (t : TaskTimer)
    (I : TaskTimer -> Prop) :
  (forall item s s',
     not_completed_yet item -> I s -> _add item s = Ok s' -> I s') ->
  Forall not_completed_yet l -> I t -> I (outcome (add_each l t) t).
Proof.
  intros Hstep. revert t. induction l as [|item l IH]; intros t F Ht; cbn.
  - exact Ht.
  - inversion F as [|? ? Hitem F']; subst.
    destruct (_add_cases item t) as [[e E]|(name & task & _ & _ & _ & E)];
      rewrite E; cbn; [exact Ht|].
    erewrite outcome_returned by apply add_each_returns.
    apply IH; [exact F'|]. eapply Hstep; eauto.
Qed.

(** ** Only the tick announces aggregate completion *)

Lemma quiet_refl (t : TaskTimer) : quiet t t.
Proof.
  exists []. now rewrite app_nil_r.
Qed.

Lemma quiet_trans (t1 t2 t3 : TaskTimer) :
  quiet t1 t2 -> quiet t2 t3 -> quiet t1 t3.
Proof.
  intros (n1 & E1 & C1) (n2 & E2 & C2). exists (n1 ++ n2). split.
  - now rewrite E2, E1, app_assoc.
  - now rewrite count_events_app, C1, C2.
Qed.

Lemma adds_quiet (t t' : TaskTimer) : adds t t' -> quiet t t'.
Proof.
  induction 1 as [t|item t t1 t2 E _ IH].
  - apply quiet_refl.
  - eapply quiet_trans; [|exact IH].
    destruct (_add_cases item t) as [[e E']|(name & task & _ & _ & _ & E')];
      rewrite E' in E; [discriminate|]. injection E as <-.
    eexists. split; reflexivity.
Qed.

Lemma perform_quiet (op : Op) (t : TaskTimer) :
  (forall now, op <> Wakeup now) -> quiet t (perform op t).
Proof.
  intros Hop. destruct op; cbn [perform].
  - apply adds_quiet, add_each_adds.
  - destruct (remove_cases r t) as [[e E]|(task & _ & _ & E)]; rewrite E.
    + apply quiet_refl.
    + eexists. split; reflexivity.
  - eexists. split; reflexivity.
  - unfold pause. case_if; [apply quiet_refl|eexists; split; reflexivity].
  - unfold resume. case_if; [apply quiet_refl|eexists; split; reflexivity].
  - unfold stop. case_if; [apply quiet_refl|eexists; split; reflexivity].
  - eexists. split; reflexivity.
  - exists []. now rewrite app_nil_r.
  - exists []. now rewrite app_nil_r.
  - now destruct (Hop now).
Qed.

(** ** The registry stays a proper map *)

Lemma own_none_not_in (name : string) (l : Registry) :
  own_property name l = None -> ~ In name (keys l).
Proof.
  induction l as [|[n v] l IH]; cbn; [tauto|].
  destruct (String.eqb_spec n name) as [->|D]; [discriminate|].
  intros G [E|H]; [contradiction|]. now apply IH.
Qed.

Lemma registered_false_own (name : string) (t : TaskTimer) :
  registered name t = false -> own_property name (tasks t) = None.
Proof.
  unfold registered. intros G. apply get_none. now destruct (get name t).
Qed.

Lemma delete_absent (name : string) (l : Registry) :
  ~ In name (keys l) -> delete name l = l.
Proof.
  induction l as [|[n v] l IH]; cbn; [reflexivity|].
  intros H. destruct (String.eqb_spec n name) as [->|D]; [tauto|].
  cbn. f_equal. apply IH. tauto.
Qed.

Lemma in_delete (name : string) (l : Registry) (kv : string * Task.t) :
  In kv (delete name l) -> In kv l.
Proof.
  unfold delete. intros H. now apply filter_In in H.
Qed.

Lemma NoDup_keys_delete (name : string) (l : Registry) :
  NoDup (keys l) -> NoDup (keys (delete name l)).
Proof.
  induction l as [|[n v] l IH]; cbn; [constructor|].
  intros ND. inversion ND as [|? ? Hnot ND']; subst.
  destruct (String.eqb n name); cbn; [now apply IH|].
  constructor; [|now apply IH].
  intros H. apply Hnot. unfold keys in *. apply in_map_iff in H.
  destruct H as (kv & <- & H). apply in_delete in H.
  now apply in_map.
Qed.

Lemma in_assign (name : string) (k : Task.t) (l : Registry)
    (kv : string * Task.t) :
  In kv (assign name k l) -> In kv l \/ kv = (name, k).
Proof.
  unfold assign. destruct (own_property name l).
  - apply in_replace.
  - apply in_place.
Qed.

Lemma registry_ok_new (a : CtorArg) : registry_ok (new a).
Proof.
  split; [constructor|]. intros name k [].
Qed.

Lemma registry_ok_add (item : TaskInput) (t t' : TaskTimer) :
  registry_ok t -> _add item t = Ok t' -> registry_ok t'.
Proof.
  intros [ND Hn] E.
  destruct (_add_cases item t) as [[e E']|(name & task & R & G & T & E')];
    rewrite E' in E; [discriminate|]. injection E as <-.
  split.
  - change (NoDup (keys (place name task (tasks t)))).
    apply NoDup_keys_place; [|exact ND].
    now apply registered_false_own.
  - intros n k H. change (In (n, k) (place name task (tasks t))) in H.
    apply in_place in H. destruct H as [H|[= -> ->]]; [now apply Hn|].
    split; [eapply task_for_name, T|eapply resolve_name_not_empty, R].
Qed.

Lemma registry_ok_adds (t t' : TaskTimer) :
  adds t t' -> registry_ok t -> registry_ok t'.
Proof.
  induction 1 as [t|item t t1 t2 E _ IH]; [auto|].
  intros H. apply IH. eapply registry_ok_add; eauto.
Qed.

Lemma registry_ok_tick_task (now : Z) (t : TaskTimer) (name : string) :
  registry_ok t -> registry_ok (tick_task now t name).
Proof.
  intros [ND Hn]. split.
  - now rewrite tick_task_keys.
  - destruct (runs_now t name) eqn:R.
    + destruct (runs_now_get _ _ R) as (k & G & Hk).
      rewrite (tick_task_run now _ _ _ G Hk), on_run_tasks.
      intros n v H. apply in_assign in H.
      destruct H as [H|[= -> ->]]; [now apply Hn|].
      apply own_in in G. now apply Hn in G.
    + now rewrite tick_task_skip.
Qed.

Lemma registry_ok_tick_loop (now : Z) (names : list string) (t : TaskTimer) :
  registry_ok t -> registry_ok (fold_left (tick_task now) names t).
Proof.
  revert t. induction names as [|n names IH]; intros t H; cbn; [exact H|].
  now apply IH, registry_ok_tick_task.
Qed.

Lemma registry_ok_perform (op : Op) (t : TaskTimer) :
  registry_ok t -> registry_ok (perform op t).
Proof.
  intros H. destruct op; cbn [perform]; try exact H.
  - eapply registry_ok_adds; [apply add_each_adds|exact H].
  - destruct (remove_cases r t) as [[e E]|(task & _ & _ & E)]; rewrite E;
      [exact H|].
    destruct H as [ND Hn]. unfold registry_ok, outcome, tasks. cbn [priv].
    rewrite unset_tasks. split.
    + now apply NoDup_keys_delete.
    + intros n k Hin. apply in_delete in Hin. now apply Hn.
  - unfold pause. now case_if.
  - unfold resume. now case_if.
  - unfold stop. now case_if.
  - split; [constructor|]. intros n k [].
  - unfold wakeup. destruct (_timer t); [|exact H].
    apply (registry_ok_tick_loop now (keys (tasks t)) t H).
Qed.

(** In every run the registry is a proper map. *)
Lemma reachable_registry_ok (t : TaskTimer) : reachable t -> registry_ok t.
Proof.
  induction 1 as [a|op t _ IH].
  - apply registry_ok_new.
  - now apply registry_ok_perform.
Qed.

(** ** Where the count of completed tasks is kept right *)

Lemma count_completed_app (a b : Registry) :
  count_completed (a ++ b) = count_completed a + count_completed b.
Proof.
  unfold count_completed. rewrite filter_app, length_app. lia.
Qed.

Lemma count_completed_delete (name : string) (task : Task.t) (l : Registry) :
  NoDup (keys l) -> own_property name l = Some task ->
  count_completed (delete name l) =
    count_completed l - (if Task.completed task then 1 else 0).
Proof.
  induction l as [|[n v] l IH]; cbn [own_property]; [discriminate|].
  intros ND. inversion ND as [|? ? Hnot ND']; subst.
  rewrite count_completed_cons. unfold delete. cbn [filter fst].
  destruct (String.eqb_spec n name) as [->|D]; cbn [negb].
  - intros [= ->]. fold (delete name l).
    rewrite delete_absent by exact Hnot. lia.
  - intros G. fold (delete name l).
    rewrite count_completed_cons, IH by assumption. lia.
Qed.

Lemma count_completed_registered (name : string) (task : Task.t)
    (l : Registry) :
  own_property name l = Some task -> Task.completed task = true ->
  0 < count_completed l.
Proof.
  induction l as [|[n v] l IH]; cbn [own_property]; [discriminate|].
  pose proof (count_completed_bounds l) as B.
  rewrite count_completed_cons.
  destruct (String.eqb n name).
  - intros [= ->] ->. lia.
  - intros G C. specialize (IH G C). destruct (Task.completed v); lia.
Qed.

Lemma count_completed_place (name : string) (k : Task.t) (l : Registry) :
  count_completed (place name k l) =
    count_completed l + (if Task.completed k then 1 else 0).
Proof.
  destruct (place_split name k l) as (l1 & l2 & -> & ->).
  rewrite !count_completed_app, count_completed_cons. lia.
Qed.

(** Adding a task that is not completed keeps the count right. *)
Lemma counts_agree_add (item : TaskInput) (t t' : TaskTimer) :
  not_completed_yet item -> counts_agree t -> _add item t = Ok t' ->
  counts_agree t'.
Proof.
  intros Hitem Hc E.
  destruct (_add_cases item t) as [[e E']|(name & task & R & G & T & E')];
    rewrite E' in E; [discriminate|]. injection E as <-.
  unfold counts_agree.
  change (completedCount t =
          count_completed (place name task (tasks t))).
  rewrite count_completed_place.
  assert (C : Task.completed task = false).
  { destruct item as [cb|o|k]; cbn [wrap not_completed_yet] in T, Hitem.
    - eapply task_for_completed, T.
    - eapply task_for_completed, T.
    - unfold task_for in T. cbn in T. injection T as <-. exact Hitem. }
  rewrite C. rewrite Hc. lia.
Qed.

(** What a successful [remove] leaves: the registry without the name, the
    count of completed tasks adjusted, one more event, the rest as it was. *)
Lemma remove_effect (arg : RemoveArg) (t : TaskTimer) :
  (exists e, remove arg t = Throw e t) \/
  (exists found t',
     get (target_name arg) t = Some found /\
     target_name arg <> EmptyString /\
     remove arg t = Ok t' /\
     tasks t' = delete (target_name arg) (tasks t) /\
     completedCount t' =
       (if member_completed found && (0 <? completedCount t)
        then completedCount t - 1 else completedCount t) /\
     trace t' =
       trace t ++ [Emitted (mkEvent EventType.TASK_REMOVED (Some found))] /\
     _timer t' = _timer t /\
     state t' = state t /\
     tickCount t' = tickCount t /\
     P.options (priv t') = P.options (priv t)).
Proof.
  destruct (remove_cases arg t) as [[e E]|(found & G & D & E)];
    [left; eauto|].
  right. exists found. eexists. split; [exact G|]. split; [exact D|].
  split; [exact E|]. now repeat split.
Qed.

(** Removing a task keeps the count right. *)
Lemma counts_agree_remove (arg : RemoveArg) (t : TaskTimer) :
  registry_ok t -> counts_agree t ->
  counts_agree (outcome (remove arg t) t).
Proof.
  intros [ND _] Hc.
  destruct (remove_effect arg t)
    as [[e E]|(found & t' & G & _ & E & Ht & Hcc & _)]; rewrite E;
    [exact Hc|].
  unfold counts_agree, outcome. rewrite Ht, Hcc.
  destruct found as [task|member].
  - apply get_task in G.
    rewrite (count_completed_delete _ _ _ ND G), <- Hc.
    cbn [member_completed].
    destruct (Task.completed task) eqn:C; cbn [andb]; [|lia].
    pose proof (count_completed_registered _ _ _ G C) as Hpos.
    unfold counts_agree in Hc. rewrite <- Hc in Hpos.
    apply Z.ltb_lt in Hpos. now rewrite Hpos.
  - apply get_inherited in G. destruct G as (_ & G & _).
    rewrite (delete_unregistered _ _ G). exact Hc.
Qed.

(** Every operation keeps the count right, as long as [add] is not handed a
    [Task] instance that is already completed. *)
Lemma counts_agree_perform (op : Op) (t : TaskTimer) :
  adds_no_completed_task op -> registry_ok t -> counts_agree t ->
  counts_agree (perform op t).
Proof.
  intros Hop Hok Hc. destruct op; cbn [perform]; try exact Hc.
  - apply (add_each_adds_fresh _ _ counts_agree); [|exact Hop|exact Hc].
    intros item s s'. apply counts_agree_add.
  - now apply counts_agree_remove.
  - unfold pause. now case_if.
  - unfold resume. now case_if.
  - unfold stop. now case_if.
  - reflexivity.
  - unfold wakeup. destruct (_timer t); [|exact Hc].
    now apply on_interval_aggregate.
Qed.

(** ** Stopping on completion *)

Lemma on_run_options (now : Z) (k : Task.t) (t : TaskTimer) :
  P.options (priv (on_run now k t)) = P.options (priv t).
Proof.
  unfold on_run, stop. repeat (case_if; cbn; try reflexivity).
Qed.

Lemma on_run_stops (now : Z) (k : Task.t) (t : TaskTimer) :
  completes k t = true -> stopOnCompleted t = true ->
  state t = State.RUNNING ->
  state (on_run now k t) = State.STOPPED /\ _timer (on_run now k t) = None.
Proof.
  destruct t as [[[i soc] s l tc rc st sp cc pr] tm tr].
  unfold completes, on_run, stop, completedCount, taskCount, stopOnCompleted,
    state.
  cbn. intros C -> ->.
  destruct (Task.completed k); cbn in *.
  - rewrite C. cbn. now split.
  - rewrite Z.add_0_r in C. rewrite C. cbn. now split.
Qed.

Lemma on_run_goes_on (now : Z) (k : Task.t) (t : TaskTimer) :
  completes k t = false ->
  state (on_run now k t) = state t /\ _timer (on_run now k t) = _timer t.
Proof.
  destruct t as [[[i soc] s l tc rc st sp cc pr] tm tr].
  unfold completes, on_run, stop, completedCount, taskCount, state.
  cbn. intros C.
  destruct (Task.completed k); cbn in *.
  - rewrite C. now split.
  - rewrite Z.add_0_r in C. rewrite C. now split.
Qed.

Lemma flag_of_count (a b : bool) :
  (if a then 1%nat else 0%nat) = (if b then 1%nat else 0%nat) -> a = b.
Proof.
  destruct a, b; congruence.
Qed.

Lemma tick_task_auto_stop (now : Z) (t : TaskTimer) (name : string) :
  counts_agree t -> stopOnCompleted t = true -> state t = State.RUNNING ->
  stopOnCompleted (tick_task now t name) = true /\
  if negb (all_completed t) && all_completed (tick_task now t name)
  then state (tick_task now t name) = State.STOPPED /\
       _timer (tick_task now t name) = None
  else state (tick_task now t name) = State.RUNNING /\
       _timer (tick_task now t name) = _timer t.
Proof.
  intros Hc S R. destruct (runs_now t name) eqn:Rn.
  - destruct (runs_now_get _ _ Rn) as (k & G & Hk).
    destruct (tick_task_run_events now _ _ _ G Hk) as (new1 & Htr1 & Hn1).
    destruct (tick_task_aggregate now t name Hc)
      as (_ & _ & new2 & Htr2 & Hn2).
    rewrite Htr1 in Htr2. apply app_inv_head in Htr2. subst new2.
    rewrite Hn1 in Hn2. apply flag_of_count in Hn2. rewrite <- Hn2.
    rewrite (tick_task_run now _ _ _ G Hk).
    set (k' := Task.record_run now k) in *.
    set (t0 := update _ (record _ t)).
    assert (Hcomp : completes k' t0 =
              (completedCount t + (if Task.completed k' then 1 else 0)
               =? taskCount t)).
    { unfold completes, taskCount. subst t0. cbn.
      fold (tasks t). rewrite (keys_assign_registered _ _ _ _ G).
      reflexivity. }
    split.
    { unfold stopOnCompleted. now rewrite on_run_options. }
    rewrite <- Hcomp. destruct (completes k' t0) eqn:C.
    + now apply on_run_stops.
    + destruct (on_run_goes_on now k' t0 C) as [-> ->]. now split.
  - rewrite tick_task_skip by exact Rn. split; [exact S|].
    destruct (all_completed t); cbn; now split.
Qed.

Lemma tick_loop_auto_stop (now : Z) (names : list string) (t : TaskTimer) :
  counts_agree t -> stopOnCompleted t = true -> state t = State.RUNNING ->
  all_completed t = false ->
  all_completed (fold_left (tick_task now) names t) = true ->
  state (fold_left (tick_task now) names t) = State.STOPPED /\
  _timer (fold_left (tick_task now) names t) = None.
Proof.
  revert t. induction names as [|n names IH]; intros t Hc S R A A'.
  - cbn in A'. congruence.
  - cbn [fold_left] in *.
    destruct (tick_task_aggregate now t n Hc) as (Hc1 & _ & _).
    destruct (tick_task_auto_stop now t n Hc S R) as [S1 Hstep].
    rewrite A in Hstep. cbn [negb andb] in Hstep.
    destruct (all_completed (tick_task now t n)) eqn:A1.
    + destruct (tick_loop_aggregate now names _ Hc1) as (_ & Hstay & _).
      rewrite (Hstay A1). exact Hstep.
    + destruct Hstep as [R1 _]. now apply IH.
Qed.

(** With [stopOnCompleted] set, when the last task of a running timer
    completes during a tick, [_tick] ends with the state stopped and the timer
    disarmed, so that no later tick fires; but the function that [_run] gave
    to [setInterval] then sets the state back to running. *)
Lemma auto_stop_within_tick (now : Z) (t : TaskTimer) :
  counts_agree t -> stopOnCompleted t = true -> state t = State.RUNNING ->
  all_completed t = false -> all_completed (_tick now t) = true ->
  state (_tick now t) = State.STOPPED /\
  _timer (_tick now t) = None /\
  state (on_interval now t) = State.RUNNING /\
  forall later, wakeup later (on_interval now t) = None.
Proof.
  intros Hc S R A A'.
  destruct (tick_loop_auto_stop now (keys (tasks t)) t Hc S R A A')
    as [Hs Ht].
  repeat split; try assumption.
  intros later. unfold wakeup.
  change (_timer (on_interval now t))
    with (_timer (fold_left (tick_task now) (keys (tasks t)) t)).
  now rewrite Ht.
Qed.

(** C1.  With [stopOnCompleted] set and a single task limited to one run, the
    first wakeup completes the task: [_tick] stops the timer ([stopped] is
    emitted, the state is stopped when [_tick] returns, the timer is disarmed
    and no later wakeup fires), yet the wakeup ends with the state set back to
    running. *)
Theorem state_running_after_auto_stop :
  stopOnCompleted (run NoOptions auto_stop_run) = true /\
  state (run NoOptions auto_stop_run) = State.RUNNING /\
  all_completed (run NoOptions auto_stop_run) = false /\
  all_completed (_tick 1000 (run NoOptions auto_stop_run)) = true /\
  state (_tick 1000 (run NoOptions auto_stop_run)) = State.STOPPED /\
  count_events EventType.STOPPED
    (trace (_tick 1000 (run NoOptions auto_stop_run))) = 1%nat /\
  wakeup 1000 (run NoOptions auto_stop_run) =
    Some (on_interval 1000 (run NoOptions auto_stop_run)) /\
  state (on_interval 1000 (run NoOptions auto_stop_run)) = State.RUNNING /\
  _timer (on_interval 1000 (run NoOptions auto_stop_run)) = None /\
  wakeup 2000 (on_interval 1000 (run NoOptions auto_stop_run)) = None.
Proof.
  repeat split; vm_compute; reflexivity.
Qed.

(** C3.  After its single run the task a is completed and counted; removing
    it brings the count back to 0; adding the same [Task] instance again
    registers a completed task but leaves [completedCount] at 0, so the count
    no longer agrees with the registry. *)
Theorem readded_completed_task_uncounted :
  get "a" (run NoOptions one_tick_run) = Some (TaskOf done_task) /\
  Task.completed done_task = true /\
  counts_agree (run NoOptions one_tick_run) /\
  counts_agree (perform (Remove (ByTask done_task))
                  (run NoOptions one_tick_run)) /\
  tasks (run NoOptions readd_run) = [("a"%string, done_task)] /\
  completedCount (run NoOptions readd_run) = 0 /\
  count_completed (tasks (run NoOptions readd_run)) = 1 /\
  ~ counts_agree (run NoOptions readd_run).
Proof.
  repeat split; try (vm_compute; reflexivity).
  unfold counts_agree. vm_compute. discriminate.
Qed.

(** ** The aggregate completed event *)

(** C2, as the specification words it, fails: with the task a completed and
    the task b not, removing b takes the timer into the condition where every
    registered task is completed, with one task registered; no [completed]
    event was emitted before, none is emitted by the removal, and none by the
    next tick. *)
Lemma removal_completes_silently :
  counts_agree (run NoOptions two_tasks_run) /\
  all_completed (run NoOptions two_tasks_run) = false /\
  all_completed
    (perform (Remove (ByName "b")) (run NoOptions two_tasks_run)) = true /\
  taskCount
    (perform (Remove (ByName "b")) (run NoOptions two_tasks_run)) = 1 /\
  count_events EventType.COMPLETED
    (trace (perform (Remove (ByName "b")) (run NoOptions two_tasks_run)))
    = 0%nat /\
  count_events EventType.COMPLETED
    (trace (perform (Wakeup 2000)
              (perform (Remove (ByName "b")) (run NoOptions two_tasks_run))))
    = 0%nat /\
  ~ completed_once_per_transition.
Proof.
  assert (A : all_completed (run NoOptions two_tasks_run) = false)
    by (vm_compute; reflexivity).
  assert (A' : all_completed (perform (Remove (ByName "b"))
                               (run NoOptions two_tasks_run)) = true)
    by (vm_compute; reflexivity).
  split; [vm_compute; reflexivity|].
  split; [exact A|].
  split; [exact A'|].
  split; [vm_compute; reflexivity|].
  split; [vm_compute; reflexivity|].
  split; [vm_compute; reflexivity|].
  intros H. specialize (H NoOptions two_tasks_run (Remove (ByName "b")) A A').
  vm_compute in H. discriminate.
Qed.

(** C2, amended.  In a wakeup that starts with [completedCount] equal to the
    number of completed registered tasks, the [completed] event is emitted
    exactly once if the wakeup takes the registry from not all completed to
    all completed (with at least one task), and not at all otherwise; a wakeup
    with no task registered emits none; and no other operation emits one. *)
Theorem completed_event_law (now : Z) (t : TaskTimer) :
  (counts_agree t ->
   exists new,
     trace (on_interval now t) = trace t ++ new /\
     count_events EventType.COMPLETED new =
       (if negb (all_completed t) && all_completed (on_interval now t)
        then 1%nat else 0%nat)) /\
  (taskCount t = 0 ->
   exists new,
     trace (on_interval now t) = trace t ++ new /\
     count_events EventType.COMPLETED new = 0%nat) /\
  (forall op, (forall n, op <> Wakeup n) -> quiet t (perform op t)).
Proof.
  split; [|split].
  - intros Hc. now apply on_interval_aggregate.
  - intros Hz. rewrite taskCount_length in Hz.
    assert (E : tasks t = []) by (destruct (tasks t); [reflexivity|cbn in Hz; lia]).
    exists [Emitted (mkEvent EventType.TICK None)]. split; [|reflexivity].
    change (trace (on_interval now t)) with (trace (_tick now t)).
    rewrite _tick_trace, E. reflexivity.
  - intros op Hop. now apply perform_quiet.
Qed.

Lemma completed_event_law_witness :
  counts_agree (run NoOptions [Add (Single (once "a")); Start 0]) /\
  exists new,
    trace (on_interval 1000 (run NoOptions [Add (Single (once "a")); Start 0]))
      = trace (run NoOptions [Add (Single (once "a")); Start 0]) ++ new /\
    count_events EventType.COMPLETED new = 1%nat.
Proof.
  split; [reflexivity|].
  apply (proj1 (completed_event_law 1000
                  (run NoOptions [Add (Single (once "a")); Start 0]))).
  reflexivity.
Defined.

(** ** Instances of the laws *)


Lemma tickCount_law_witness :
  wakeup 1000 (run NoOptions [Start 0])
    = Some (on_interval 1000 (run NoOptions [Start 0])) /\
  tickCount (on_interval 1000 (run NoOptions [Start 0]))
    = tickCount (run NoOptions [Start 0]) + 1.
Proof.
  split; [reflexivity|].
  apply (proj1 (proj2 (tickCount_law 1000 (run NoOptions [Start 0])))).
  reflexivity.
Defined.

Lemma add_name_conflict_witness :
  resolve_name (wrap (once "a")) (run NoOptions [Add (Single (once "a"))])
    = Some "a"%string /\
  registered "a" (run NoOptions [Add (Single (once "a"))]) = true /\
  _add (once "a") (run NoOptions [Add (Single (once "a"))])
    = Throw (NameConflict "a") (run NoOptions [Add (Single (once "a"))]).
Proof.
  split; [reflexivity|]. split; [reflexivity|].
  apply (add_name_conflict (once "a")
           (run NoOptions [Add (Single (once "a"))]) "a"); reflexivity.
Defined.

(** ** Runs *)

Lemma run_snoc (a : CtorArg) (ops : list Op) (op : Op) :
  run a (ops ++ [op]) = perform op (run a ops).
Proof.
  unfold run. now rewrite fold_left_app.
Qed.

Lemma run_reachable (a : CtorArg) (ops : list Op) : reachable (run a ops).
Proof.
  induction ops as [|op ops IH] using rev_ind.
  - constructor.
  - rewrite run_snoc. now constructor.
Qed.

Lemma adds_tickCount (t t' : TaskTimer) :
  adds t t' -> tickCount t' = tickCount t.
Proof.
  induction 1 as [t|item t t1 t2 E _ IH]; [reflexivity|].
  rewrite IH.
  destruct (_add_cases item t) as [[e E']|(n & k & _ & _ & _ & E')];
    rewrite E' in E; [discriminate|]. now injection E as <-.
Qed.

(** The tick count of a run is never negative. *)
Lemma reachable_tickCount (t : TaskTimer) : reachable t -> 0 <= tickCount t.
Proof.
  induction 1 as [a|op t _ IH].
  - cbn. lia.
  - destruct op; cbn [perform]; try exact IH; try (cbn; lia).
    + unfold add.
      now rewrite (adds_tickCount _ _ (add_each_adds (_ensureArray a) t)).
    + destruct (remove_cases r t) as [[e E]|(task & _ & _ & E)]; rewrite E;
        exact IH.
    + unfold pause. now case_if.
    + unfold resume. now case_if.
    + unfold stop. now case_if.
    + unfold wakeup. destruct (_timer t); [|exact IH].
      rewrite on_interval_tickCount. lia.
Qed.

(** * Further properties of the timer *)

(** ** The registry in every run *)

(** X1.  In every run of the timer the registry is a proper map: no name is
    registered twice, every task is stored under its own name, and no name is
    empty. *)
Theorem registry_proper_in_every_run (a : CtorArg) (ops : list Op) :
  NoDup (keys (tasks (run a ops))) /\
  Forall (fun kv => Task.name (snd kv) = fst kv /\ fst kv <> EmptyString)
         (tasks (run a ops)).
Proof.
  destruct (reachable_registry_ok _ (run_reachable a ops)) as [ND Hn].
  split; [exact ND|].
  apply Forall_forall. intros [n k] H. now apply Hn.
Qed.

(** ** The state and the interval timer *)

Lemma adds_frame (t t' : TaskTimer) :
  adds t t' -> state t' = state t /\ _timer t' = _timer t.
Proof.
  induction 1 as [t|item t t1 t2 E _ IH]; [now split|].
  destruct (_add_cases item t) as [[e E']|(n & k & _ & _ & _ & E')];
    rewrite E' in E; [discriminate|]. injection E as <-.
  exact IH.
Qed.

Lemma armed_running_perform (op : Op) (t : TaskTimer) :
  _timer t = None \/ state t = State.RUNNING ->
  _timer (perform op t) = None \/ state (perform op t) = State.RUNNING.
Proof.
  intros H. destruct op; cbn [perform]; try exact H.
  - unfold add.
    destruct (adds_frame _ _ (add_each_adds (_ensureArray a) t)) as [-> ->].
    exact H.
  - destruct (remove_cases r t) as [[e E]|(task & _ & _ & E)]; rewrite E;
      exact H.
  - now right.
  - unfold pause. case_if; [exact H|now left].
  - unfold resume. case_if; [exact H|now right].
  - unfold stop. case_if; [exact H|now left].
  - now left.
  - unfold wakeup. destruct (_timer t) eqn:E; cbn;
      [right; reflexivity|left; exact E].
Qed.

(** X5.  In every run, a timer that is armed is in state running: in the
    states idle, paused and stopped no wakeup can fire. *)
Theorem armed_only_when_running (a : CtorArg) (ops : list Op) :
  (_timer (run a ops) = None \/ state (run a ops) = State.RUNNING) /\
  (state (run a ops) = State.RUNNING \/
   forall now, wakeup now (run a ops) = None).
Proof.
  assert (H : _timer (run a ops) = None \/ state (run a ops) = State.RUNNING).
  { induction ops as [|op ops IH] using rev_ind.
    - now left.
    - rewrite run_snoc. now apply armed_running_perform. }
  split; [exact H|].
  destruct H as [H|H]; [right|now left].
  intros now. unfold wakeup. now rewrite H.
Qed.

(** ** Lifecycle methods out of turn *)

Lemma state_eqb_refl (s : State.t) : State.eqb s s = true.
Proof. now destruct s. Qed.

(** X6.  The lifecycle methods are idempotent and tolerate being called out
    of turn: a second [pause], [resume] or [stop] changes nothing (the stop
    time of the first [stop] stays), a stopped timer can be neither paused nor
    resumed, and [stop] on a paused timer does nothing, leaving it
    paused. *)
Theorem lifecycle_out_of_turn (now later : Z) (t : TaskTimer) :
  pause (pause t) = pause t /\
  resume (resume t) = resume t /\
  stop later (stop now t) = stop now t /\
  pause (stop now t) = stop now t /\
  stop now (pause t) = pause t /\
  (state t = State.RUNNING ->
     state (stop now (pause t)) = State.PAUSED /\
     resume (stop now t) = stop now t) /\
  (state t = State.PAUSED -> stop now t = t /\ pause t = t) /\
  (state t = State.IDLE ->
     stop now t = t /\ pause t = t /\ resume t = t).
Proof.
  destruct t as [[o s l tc rc st sp cc pr] tm tr].
  unfold pause, resume, stop, state; cbn.
  destruct s; cbn; repeat split; try reflexivity; try discriminate.
Qed.

Lemma lifecycle_out_of_turn_witness :
  state (run NoOptions [Start 0]) = State.RUNNING /\
  state (stop 7 (pause (run NoOptions [Start 0]))) = State.PAUSED /\
  resume (stop 7 (run NoOptions [Start 0])) = stop 7 (run NoOptions [Start 0]).
Proof.
  split; [reflexivity|].
  apply (proj1 (proj2 (proj2 (proj2 (proj2 (proj2
           (lifecycle_out_of_turn 7 9 (run NoOptions [Start 0])))))))).
  reflexivity.
Defined.

(** ** Bounds on the count of completed tasks *)

Lemma count_within_add (item : TaskInput) (t t' : TaskTimer) :
  count_within t -> _add item t = Ok t' -> count_within t'.
Proof.
  intros Hc E.
  destruct (_add_cases item t) as [[e E']|(name & task & _ & _ & _ & E')];
    rewrite E' in E; [discriminate|]. injection E as <-.
  unfold count_within in *.
  change (0 <= completedCount t <=
          count_completed (place name task (tasks t))).
  rewrite count_completed_place.
  destruct (Task.completed task); lia.
Qed.

Lemma count_within_adds (t t' : TaskTimer) :
  adds t t' -> count_within t -> count_within t'.
Proof.
  induction 1 as [t|item t t1 t2 E _ IH]; [auto|].
  intros H. apply IH. eapply count_within_add; eauto.
Qed.

Lemma count_within_remove (arg : RemoveArg) (t : TaskTimer) :
  registry_ok t -> count_within t ->
  count_within (outcome (remove arg t) t).
Proof.
  intros [ND _] Hc.
  destruct (remove_effect arg t)
    as [[e E]|(found & t' & G & _ & E & Ht & Hcc & _)]; rewrite E;
    [exact Hc|].
  unfold count_within, outcome in *. rewrite Ht, Hcc.
  destruct found as [task|member].
  - apply get_task in G.
    rewrite (count_completed_delete _ _ _ ND G). cbn [member_completed].
    destruct (Task.completed task) eqn:C; cbn [andb]; [|lia].
    pose proof (count_completed_registered _ _ _ G C) as Hpos.
    destruct (Z.ltb_spec 0 (completedCount t)); lia.
  - apply get_inherited in G. destruct G as (_ & G & _).
    rewrite (delete_unregistered _ _ G). exact Hc.
Qed.

Lemma count_within_tick_task (now : Z) (t : TaskTimer) (name : string) :
  count_within t -> count_within (tick_task now t name).
Proof.
  intros Hc. destruct (runs_now t name) eqn:R.
  - destruct (runs_now_get _ _ R) as (k & G & Hk).
    assert (C : Task.completed k = false).
    { unfold runs_on, Task.can_run in Hk.
      rewrite !andb_true_iff, negb_true_iff in Hk. tauto. }
    unfold count_within in *.
    rewrite (tick_task_run now _ _ _ G Hk), on_run_completedCount,
      on_run_tasks.
    unfold completedCount, tasks in *.
    cbn [priv update record P.tasks P.with_tasks P.completedCount].
    rewrite (count_completed_assign _ _ _ _ G C).
    destruct (Task.completed (Task.record_run now k)); lia.
  - now rewrite tick_task_skip.
Qed.

Lemma count_within_tick_loop (now : Z) (names : list string) (t : TaskTimer) :
  count_within t -> count_within (fold_left (tick_task now) names t).
Proof.
  revert t. induction names as [|n names IH]; intros t H; cbn; [exact H|].
  now apply IH, count_within_tick_task.
Qed.

Lemma count_within_perform (op : Op) (t : TaskTimer) :
  registry_ok t -> count_within t -> count_within (perform op t).
Proof.
  intros Hok Hc. destruct op; cbn [perform]; try exact Hc.
  - eapply count_within_adds; [apply add_each_adds|exact Hc].
  - now apply count_within_remove.
  - unfold pause. now case_if.
  - unfold resume. now case_if.
  - unfold stop. now case_if.
  - unfold count_within. cbn. lia.
  - unfold wakeup. destruct (_timer t); [|exact Hc].
    apply (count_within_tick_loop now (keys (tasks t)) t Hc).
Qed.

Lemma count_within_run (a : CtorArg) (ops : list Op) :
  count_within (run a ops).
Proof.
  induction ops as [|op ops IH] using rev_ind.
  - unfold count_within. cbn. lia.
  - rewrite run_snoc. apply count_within_perform; [|exact IH].
    apply reachable_registry_ok, run_reachable.
Qed.

(** X2.  In every run, [completedCount] is never negative, never exceeds the
    number of registered tasks that are completed, and so never exceeds
    [taskCount]. *)
Theorem completedCount_bounds (a : CtorArg) (ops : list Op) :
  0 <= completedCount (run a ops) /\
  completedCount (run a ops) <= count_completed (tasks (run a ops)) /\
  count_completed (tasks (run a ops)) <= taskCount (run a ops).
Proof.
  pose proof (count_within_run a ops) as [H0 H1].
  pose proof (count_completed_bounds (tasks (run a ops))) as [_ H2].
  rewrite taskCount_length. repeat split; assumption.
Qed.

(** X3.  In a run that never hands [add] a [Task] instance that is already
    completed, [completedCount] equals the number of completed registered
    tasks after every operation. *)
Theorem completedCount_exact (a : CtorArg) (ops : list Op) :
  Forall adds_no_completed_task ops ->
  counts_agree (run a ops).
Proof.
  induction ops as [|op ops IH] using rev_ind; intros F.
  - reflexivity.
  - apply Forall_app in F. destruct F as [F Fop].
    inversion Fop as [|? ? Hop _]; subst.
    rewrite run_snoc. apply counts_agree_perform; [exact Hop| |now apply IH].
    apply reachable_registry_ok, run_reachable.
Qed.

Lemma completedCount_exact_witness :
  Forall adds_no_completed_task two_tasks_run /\
  counts_agree (run NoOptions two_tasks_run).
Proof.
  assert (F : Forall adds_no_completed_task two_tasks_run).
  { repeat constructor. }
  split; [exact F|].
  apply (completedCount_exact NoOptions two_tasks_run F).
Defined.

(** ** What a wakeup records *)

Lemma on_run_trace_exact (now : Z) (k : Task.t) (t : TaskTimer) :
  trace (on_run now k t) = trace t ++ on_run_effects k t.
Proof.
  destruct t as [[[i soc] s l tc rc st sp cc pr] tm tr].
  unfold on_run, on_run_effects, completes, stop, completedCount, taskCount,
    stopOnCompleted, state.
  cbn. destruct (Task.completed k); cbn.
  - destruct (cc + 1 =? _); cbn; [|now rewrite <- !app_assoc].
    destruct soc; cbn; [|now rewrite <- !app_assoc].
    destruct s; cbn; now rewrite <- !app_assoc.
  - rewrite Z.add_0_r. destruct (cc =? _); cbn; [|reflexivity].
    destruct soc; cbn; [|now rewrite <- !app_assoc].
    destruct s; cbn; now rewrite <- !app_assoc.
Qed.

Lemma on_run_runCount (now : Z) (k : Task.t) (t : TaskTimer) :
  runCount (on_run now k t) = runCount t + 1.
Proof.
  unfold on_run, stop, runCount. repeat (case_if; cbn; try reflexivity).
Qed.

Lemma count_calls_app (a b : list Effect) :
  count_calls (a ++ b) = (count_calls a + count_calls b)%nat.
Proof.
  unfold count_calls. now rewrite filter_app, length_app.
Qed.

(** The counters move with the events: one [task] event per call and per
    unit of [runCount], one [taskCompleted] event per unit of
    [completedCount], and no [tick] event inside the loop. *)
Lemma tick_task_accounting (now : Z) (t : TaskTimer) (name : string) :
  exists new,
    trace (tick_task now t name) = trace t ++ new /\
    runCount (tick_task now t name) =
      runCount t + Z.of_nat (count_events EventType.TASK new) /\
    count_calls new = count_events EventType.TASK new /\
    completedCount (tick_task now t name) =
      completedCount t + Z.of_nat (count_events EventType.TASK_COMPLETED new) /\
    count_events EventType.TICK new = 0%nat.
Proof.
  destruct (runs_now t name) eqn:R.
  - destruct (runs_now_get _ _ R) as (k & G & Hk).
    rewrite (tick_task_run now _ _ _ G Hk).
    set (k' := Task.record_run now k).
    set (t0 := update _ (record _ t)).
    exists (Called (Task.callback k) k :: on_run_effects k' t0).
    rewrite on_run_trace_exact, on_run_runCount, on_run_completedCount.
    split.
    { subst t0. cbn [trace update record]. now rewrite <- app_assoc. }
    unfold on_run_effects.
    destruct (Task.completed k'), (completes k' t0),
      (stopOnCompleted t0 && State.eqb (state t0) State.RUNNING);
      cbn; repeat split; reflexivity.
  - rewrite tick_task_skip by exact R. exists [].
    rewrite app_nil_r. cbn. repeat split; lia.
Qed.

Lemma tick_loop_accounting (now : Z) (names : list string) (t : TaskTimer) :
  exists new,
    trace (fold_left (tick_task now) names t) = trace t ++ new /\
    runCount (fold_left (tick_task now) names t) =
      runCount t + Z.of_nat (count_events EventType.TASK new) /\
    count_calls new = count_events EventType.TASK new /\
    completedCount (fold_left (tick_task now) names t) =
      completedCount t + Z.of_nat (count_events EventType.TASK_COMPLETED new) /\
    count_events EventType.TICK new = 0%nat.
Proof.
  revert t. induction names as [|n names IH]; intros t; cbn [fold_left].
  - exists []. rewrite app_nil_r. cbn. repeat split; lia.
  - destruct (tick_task_accounting now t n)
      as (new1 & Htr1 & Hr1 & Hc1 & Hd1 & Ht1).
    destruct (IH (tick_task now t n))
      as (new2 & Htr2 & Hr2 & Hc2 & Hd2 & Ht2).
    exists (new1 ++ new2).
    rewrite !count_events_app, count_calls_app.
    repeat split.
    + rewrite Htr2, Htr1. now rewrite app_assoc.
    + rewrite Hr2, Hr1. lia.
    + lia.
    + rewrite Hd2, Hd1. lia.
    + lia.
Qed.

(** X7.  During a wakeup [runCount] grows by exactly the number of tasks
    executed, each of which is recorded as one callback call and one [task]
    event, and [completedCount] grows by exactly the number of
    [taskCompleted] events emitted. *)
Theorem wakeup_accounting (now : Z) (t : TaskTimer) :
  exists new,
    trace (on_interval now t) = trace t ++ new /\
    runCount (on_interval now t) =
      runCount t + Z.of_nat (count_events EventType.TASK new) /\
    count_calls new = count_events EventType.TASK new /\
    completedCount (on_interval now t) =
      completedCount t + Z.of_nat (count_events EventType.TASK_COMPLETED new).
Proof.
  destruct (tick_loop_accounting now (keys (tasks t)) t)
    as (new & Htr & Hr & Hc & Hd & _).
  exists (new ++ [Emitted (mkEvent EventType.TICK None)]).
  split.
  { change (trace (on_interval now t)) with (trace (_tick now t)).
    rewrite _tick_trace, Htr. now rewrite app_assoc. }
  rewrite !count_events_app, count_calls_app.
  change (count_events EventType.TASK
            [Emitted (mkEvent EventType.TICK None)]) with 0%nat.
  change (count_events EventType.TASK_COMPLETED
            [Emitted (mkEvent EventType.TICK None)]) with 0%nat.
  change (count_calls [Emitted (mkEvent EventType.TICK None)]) with 0%nat.
  rewrite !Nat.add_0_r.
  repeat split; assumption.
Qed.

(** X8.  Every wakeup emits exactly one [tick] event, and emits it last,
    after everything the tasks of that tick caused, whether or not any task
    ran and whether or not the tick stopped the timer. *)
Theorem tick_event_last (now : Z) (t : TaskTimer) :
  exists new,
    trace (on_interval now t) =
      trace t ++ new ++ [Emitted (mkEvent EventType.TICK None)] /\
    count_events EventType.TICK new = 0%nat.
Proof.
  destruct (tick_loop_accounting now (keys (tasks t)) t)
    as (new & Htr & _ & _ & _ & Ht).
  exists new. split; [|exact Ht].
  change (trace (on_interval now t)) with (trace (_tick now t)).
  rewrite _tick_trace, Htr. now rewrite app_assoc.
Qed.

(** ** The completed event is never stale *)

Lemma all_completed_settled (now : Z) (names : list string) (t : TaskTimer) :
  all_completed t = true -> fold_left (tick_task now) names t = t.
Proof.
  intros A. induction names as [|n names IH]; cbn [fold_left]; [reflexivity|].
  rewrite tick_task_skip by now apply all_completed_nothing_runs.
  exact IH.
Qed.

Lemma tick_task_genuine (now : Z) (t : TaskTimer) (name : string) :
  count_within t ->
  exists new,
    trace (tick_task now t name) = trace t ++ new /\
    (count_events EventType.COMPLETED new = 0%nat \/
     all_completed (tick_task now t name) = true).
Proof.
  intros Hc. destruct (runs_now t name) eqn:R.
  - destruct (runs_now_get _ _ R) as (k & G & Hk).
    destruct (tick_task_run_events now _ _ _ G Hk) as (new & Htr & Hn).
    exists new. split; [exact Htr|].
    rewrite Hn.
    pose proof (count_within_tick_task now t name Hc) as [_ Hle].
    assert (Hcc : completedCount (tick_task now t name) =
              completedCount t
              + (if Task.completed (Task.record_run now k) then 1 else 0)).
    { rewrite (tick_task_run now _ _ _ G Hk), on_run_completedCount.
      reflexivity. }
    assert (Htc : taskCount (tick_task now t name) = taskCount t).
    { unfold taskCount. now rewrite tick_task_keys. }
    destruct (Z.eqb_spec
                (completedCount t
                 + (if Task.completed (Task.record_run now k) then 1 else 0))
                (taskCount t)) as [E|_]; [right|now left].
    rewrite all_completed_count, Htc.
    pose proof (count_completed_bounds (tasks (tick_task now t name))) as B.
    rewrite <- taskCount_length, Htc in B.
    assert (Hpos : 0 < taskCount t).
    { rewrite taskCount_length. apply own_in in G.
      destruct (tasks t); [destruct G|cbn [List.length]; lia]. }
    apply andb_true_intro. split; [now apply Z.ltb_lt|].
    apply Z.eqb_eq. lia.
  - rewrite tick_task_skip by exact R. exists [].
    rewrite app_nil_r. split; [reflexivity|now left].
Qed.

Lemma tick_loop_genuine (now : Z) (names : list string) (t : TaskTimer) :
  count_within t ->
  exists new,
    trace (fold_left (tick_task now) names t) = trace t ++ new /\
    (count_events EventType.COMPLETED new = 0%nat \/
     all_completed (fold_left (tick_task now) names t) = true).
Proof.
  revert t. induction names as [|n names IH]; intros t Hc; cbn [fold_left].
  - exists []. rewrite app_nil_r. split; [reflexivity|now left].
  - destruct (tick_task_genuine now t n Hc) as (new1 & Htr1 & H1).
    destruct (IH _ (count_within_tick_task now t n Hc))
      as (new2 & Htr2 & H2).
    exists (new1 ++ new2). split.
    + rewrite Htr2, Htr1. now rewrite app_assoc.
    + destruct H2 as [H2|H2]; [|now right].
      destruct H1 as [H1|H1].
      * left. now rewrite count_events_app, H1, H2.
      * right. now rewrite (all_completed_settled now names _ H1).
Qed.

(** X4.  In every run, a wakeup that emits the [completed] event ends with at
    least one task registered and every registered task completed: the event
    is never emitted on a stale count or for an empty registry. *)
Theorem completed_event_genuine (a : CtorArg) (ops : list Op) (now : Z) :
  exists new,
    trace (on_interval now (run a ops)) = trace (run a ops) ++ new /\
    (count_events EventType.COMPLETED new = 0%nat \/
     all_completed (on_interval now (run a ops)) = true).
Proof.
  destruct (tick_loop_genuine now (keys (tasks (run a ops))) (run a ops)
              (count_within_run a ops)) as (new & Htr & H).
  exists (new ++ [Emitted (mkEvent EventType.TICK None)]). split.
  - change (trace (on_interval now (run a ops)))
      with (trace (_tick now (run a ops))).
    rewrite _tick_trace, Htr. now rewrite app_assoc.
  - destruct H as [H|H]; [left|right; exact H].
    rewrite count_events_app, H. reflexivity.
Qed.

(** ** Ticks on which nothing runs *)

Lemma nothing_runnable_skips (t : TaskTimer) (name : string) :
  nothing_runnable t = true -> runs_now t name = false.
Proof.
  unfold nothing_runnable, runs_now, runs_on. intros H.
  destruct (get name t) as [[k|m]|] eqn:G; try reflexivity.
  apply get_task, own_in in G. rewrite forallb_forall in H.
  specialize (H _ G). cbn in H. apply negb_true_iff in H. rewrite H.
  apply andb_false_r.
Qed.

(** X9.  When no registered task may run (each is disabled or completed, or
    there is none), a wakeup adds 1 to [tickCount], emits [tick] and nothing
    else, and leaves the tasks, [runCount] and [completedCount] and the timer
    as they were.  So restarting a timer whose tasks are all completed
    executes nothing. *)
Theorem idle_wakeup (now : Z) (t : TaskTimer) :
  nothing_runnable t = true ->
  on_interval now t =
    mkTimer (P.with_state State.RUNNING
               (P.with_tickCount (tickCount t + 1) (priv t)))
            (_timer t)
            (trace t ++ [Emitted (mkEvent EventType.TICK None)]) /\
  nothing_runnable (start now t) = true.
Proof.
  intros H. split; [|exact H].
  assert (E : fold_left (tick_task now) (keys (tasks t)) t = t).
  { induction (keys (tasks t)) as [|n names IH]; cbn [fold_left];
      [reflexivity|].
    rewrite tick_task_skip by now apply nothing_runnable_skips.
    exact IH. }
  unfold on_interval, _tick. rewrite E. reflexivity.
Qed.

Lemma idle_wakeup_witness :
  nothing_runnable (run NoOptions one_tick_run) = true /\
  runCount (on_interval 2000 (run NoOptions one_tick_run))
    = runCount (run NoOptions one_tick_run) /\
  tickCount (on_interval 2000 (run NoOptions one_tick_run)) = 2.
Proof.
  split; [reflexivity|].
  rewrite (proj1 (idle_wakeup 2000 (run NoOptions one_tick_run) eq_refl)).
  split; reflexivity.
Defined.

(** ** Arrays of tasks, in order and without rollback *)

Lemma add_each_ok (l : list TaskInput) (t t' : TaskTimer) :
  add_each l t = Ok t' ->
  exists ks,
    Forall2 (fun item k => task_for (Task.name k) (wrap item) = Some k) l ks /\
    tasks t' = place_each ks (tasks t) /\
    trace t' = trace t ++ map added_event ks.
Proof.
  revert t. induction l as [|item l IH]; intros t; cbn [add_each].
  - intros [= <-]. exists []. cbn. rewrite app_nil_r. now repeat split.
  - destruct (_add_cases item t) as [[e E]|(name & task & _ & _ & T & E)];
      rewrite E; [discriminate|].
    intros H. destruct (IH _ H) as (ks & Hall & Htasks & Htrace).
    pose proof (task_for_name _ _ _ T) as Hn.
    exists (task :: ks). split; [|split].
    + constructor; [now rewrite Hn|exact Hall].
    + rewrite Htasks. cbn [tasks priv P.tasks P.with_tasks].
      unfold place_each. cbn [fold_left]. now rewrite Hn.
    + rewrite Htrace. cbn [trace map]. now rewrite <- app_assoc.
Qed.

Lemma length_place_each (ks : list Task.t) (l : Registry) :
  List.length (place_each ks l) = (List.length l + List.length ks)%nat.
Proof.
  unfold place_each. revert l.
  induction ks as [|k ks IH]; intros l; cbn [fold_left List.length].
  - lia.
  - rewrite IH, length_place. lia.
Qed.

Lemma place_each_last (ks : list Task.t) (l : Registry) :
  Forall (fun k => array_index (Task.name k) = None) ks ->
  place_each ks l = l ++ map entry ks.
Proof.
  unfold place_each. revert l.
  induction ks as [|k ks IH]; intros l F; cbn [fold_left map].
  - now rewrite app_nil_r.
  - inversion F as [|? ? Hk F']; subst.
    rewrite (IH _ F'), (place_last _ _ _ Hk), <- app_assoc. reflexivity.
Qed.

(** X10.  When [add] succeeds on an array, each item in turn becomes a task
    whose property is created in the registry, item after item in the order
    of the array, and one [taskAdded] event per task is emitted in that same
    order, each carrying its task; nothing else is emitted, and [taskCount]
    grows by the length of the array.  The registry enumerates names that are
    array indices first, so the new tasks come after the existing ones, in
    the order of the array, when none of their names is an array index. *)
Theorem add_array_in_order (l : list TaskInput) (t t' : TaskTimer) :
  add (Array l) t = Ok t' ->
  exists ks,
    Forall2 (fun item k => task_for (Task.name k) (wrap item) = Some k) l ks /\
    tasks t' = place_each ks (tasks t) /\
    trace t' = trace t ++ map added_event ks /\
    taskCount t' = taskCount t + Z.of_nat (List.length l) /\
    (Forall (fun k => array_index (Task.name k) = None) ks ->
     tasks t' = tasks t ++ map entry ks).
Proof.
  intros H. destruct (add_each_ok _ _ _ H) as (ks & Hall & Htasks & Htrace).
  cbn [_ensureArray] in Hall.
  exists ks. repeat split; try assumption.
  - rewrite !taskCount_length, Htasks, length_place_each.
    rewrite (Forall2_length Hall). lia.
  - intros F. rewrite Htasks. now apply place_each_last.
Qed.

Lemma add_array_in_order_witness :
  add (Array [once "b"; forever "1"; once "a"]) (new NoOptions)
    = Ok (run NoOptions [Add (Array [once "b"; forever "1"; once "a"])]) /\
  keys (tasks (run NoOptions [Add (Array [once "b"; forever "1"; once "a"])]))
    = ["1"; "b"; "a"]%string /\
  exists ks,
    Forall2 (fun item k => task_for (Task.name k) (wrap item) = Some k)
      [once "b"; forever "1"; once "a"] ks /\
    tasks (run NoOptions [Add (Array [once "b"; forever "1"; once "a"])])
      = place_each ks (tasks (new NoOptions)) /\
    trace (run NoOptions [Add (Array [once "b"; forever "1"; once "a"])])
      = trace (new NoOptions) ++ map added_event ks /\
    taskCount (run NoOptions [Add (Array [once "b"; forever "1"; once "a"])])
      = taskCount (new NoOptions) + 3.
Proof.
  split; [reflexivity|]. split; [reflexivity|].
  destruct (add_array_in_order [once "b"; forever "1"; once "a"]
              (new NoOptions)
              (run NoOptions [Add (Array [once "b"; forever "1"; once "a"])])
              eq_refl)
    as (ks & Hall & Htasks & Htrace & Hcount & _).
  exists ks. repeat split; assumption.
Defined.

(** X11.  When [add] throws on an array, it is at the first item that
    [_add] rejects: the items before it stay registered (there is no
    rollback), the item itself and the items after it are not added. *)
Theorem add_array_no_rollback (l : list TaskInput) (t t' : TaskTimer)
    (e : Error) :
  add (Array l) t = Throw e t' ->
  exists before item after,
    l = before ++ item :: after /\
    add (Array before) t = Ok t' /\
    _add item t' = Throw e t'.
Proof.
  unfold add. cbn [_ensureArray].
  revert t. induction l as [|item l IH]; intros t; cbn [add_each];
    [discriminate|].
  destruct (_add_cases item t) as [[e' E]|(name & task & _ & _ & _ & E)].
  - rewrite E. intros [= <- <-]. exists [], item, l. now repeat split.
  - rewrite E. intros H.
    destruct (IH _ H) as (before & x & after & -> & Hok & Hx).
    exists (item :: before), x, after. repeat split; [|exact Hx].
    cbn [add_each]. now rewrite E.
Qed.

Lemma add_array_no_rollback_witness :
  add (Array [once "a"; once "a"; forever "b"]) (new NoOptions)
    = Throw (NameConflict "a") (run NoOptions [Add (Single (once "a"))]) /\
  exists before item after,
    [once "a"; once "a"; forever "b"] = before ++ item :: after /\
    add (Array before) (new NoOptions)
      = Ok (run NoOptions [Add (Single (once "a"))]) /\
    _add item (run NoOptions [Add (Single (once "a"))])
      = Throw (NameConflict "a") (run NoOptions [Add (Single (once "a"))]).
Proof.
  split; [reflexivity|].
  apply (add_array_no_rollback [once "a"; once "a"; forever "b"]
           (new NoOptions) (run NoOptions [Add (Single (once "a"))])
           (NameConflict "a")).
  reflexivity.
Defined.

(** ** Bare callbacks *)

Lemma _add_callback (cb : TaskCallback) (t : TaskTimer) :
  exists t',
    _add (FromCallback cb) t = Ok t' /\ taskCount t' = taskCount t + 1.
Proof.
  destruct (_getNewTaskName_spec t) as (name & E & n & _ & _ & Hfree & _).
  destruct (_add_cases (FromCallback cb) t)
    as [[e E']|(name' & task & _ & _ & _ & E')].
  - exfalso. unfold _add, resolve_name in E'.
    cbn [wrap input_name opt_name no_name] in E'.
    rewrite E, Hfree in E'. discriminate.
  - eexists. split; [exact E'|].
    rewrite !taskCount_length. cbn [tasks priv P.tasks P.with_tasks].
    rewrite length_place. lia.
Qed.

(** X12.  Adding bare callbacks never throws, in any state: each gets a
    generated name that is free, so an array of [n] callbacks always adds
    exactly [n] tasks. *)
Theorem callbacks_always_added (cbs : list TaskCallback) (t : TaskTimer) :
  exists t',
    add (Array (map FromCallback cbs)) t = Ok t' /\
    taskCount t' = taskCount t + Z.of_nat (List.length cbs).
Proof.
  unfold add. cbn [_ensureArray].
  revert t. induction cbs as [|cb cbs IH]; intros t; cbn [map add_each].
  - exists t. split; [reflexivity|]. cbn. lia.
  - destruct (_add_callback cb t) as (t1 & E & Hc). rewrite E.
    destruct (IH t1) as (t' & E' & Hc'). exists t'. split; [exact E'|].
    rewrite Hc', Hc. cbn [List.length]. lia.
Qed.

(** ** Looking up after adding and removing *)

Lemma own_delete_other (name other : string) (l : Registry) :
  other <> name -> own_property other (delete name l) = own_property other l.
Proof.
  intros D. unfold delete.
  induction l as [|[n v] l IH]; cbn; [reflexivity|].
  destruct (String.eqb_spec n name) as [->|Dn]; cbn.
  - destruct (String.eqb_spec name other) as [->|_]; [contradiction|exact IH].
  - now rewrite IH.
Qed.

Lemma length_delete (name : string) (k : Task.t) (l : Registry) :
  NoDup (keys l) -> own_property name l = Some k ->
  S (List.length (delete name l)) = List.length l.
Proof.
  induction l as [|[n v] l IH]; cbn [own_property]; [discriminate|].
  intros ND. inversion ND as [|? ? Hnot ND']; subst.
  unfold delete. cbn [filter fst].
  destruct (String.eqb_spec n name) as [->|D]; cbn [negb].
  - intros _. fold (delete name l). now rewrite delete_absent.
  - intros G. fold (delete name l). cbn [List.length].
    now rewrite IH.
Qed.

(** X13.  After a successful [_add] the task can be looked up under its
    name, which was free before; every other name resolves as before; and
    [taskCount] has grown by one. *)
Theorem get_after_add (item : TaskInput) (t t' : TaskTimer) :
  _add item t = Ok t' ->
  exists task,
    get (Task.name task) t = None /\
    get (Task.name task) t' = Some (TaskOf task) /\
    (forall other, other <> Task.name task -> get other t' = get other t) /\
    taskCount t' = taskCount t + 1.
Proof.
  intros E.
  destruct (_add_cases item t) as [[e E']|(name & task & _ & G & T & E')];
    rewrite E' in E; [discriminate|]. injection E as <-.
  pose proof (task_for_name _ _ _ T) as Hn.
  assert (G0 : get name t = None).
  { unfold registered in G. now destruct (get name t). }
  pose proof (get_none _ _ G0) as L.
  exists task. rewrite Hn. repeat split.
  - exact G0.
  - apply get_task. cbn [tasks priv P.tasks P.with_tasks].
    now apply own_place_same.
  - intros other D. unfold get, read.
    cbn [priv P.tasks P.with_tasks P.proto].
    now rewrite own_place_other.
  - rewrite !taskCount_length. cbn [tasks priv P.tasks P.with_tasks].
    rewrite length_place. lia.
Qed.

Lemma get_after_add_witness :
  _add (once "a") (new NoOptions)
    = Ok (run NoOptions [Add (Single (once "a"))]) /\
  exists task,
    get (Task.name task) (new NoOptions) = None /\
    get (Task.name task) (run NoOptions [Add (Single (once "a"))])
      = Some (TaskOf task) /\
    (forall other, other <> Task.name task ->
       get other (run NoOptions [Add (Single (once "a"))])
         = get other (new NoOptions)) /\
    taskCount (run NoOptions [Add (Single (once "a"))])
      = taskCount (new NoOptions) + 1.
Proof.
  split; [reflexivity|].
  apply (get_after_add (once "a") (new NoOptions)
           (run NoOptions [Add (Single (once "a"))])).
  reflexivity.
Defined.

(** X14.  A successful [remove] touches only its target.  The own property
    of every other name is as before, and state, timer, tick count and run
    count are unchanged.  When the target is a registered task, every other
    name also reads as before and [taskCount] drops by exactly one (names
    being unique).  When the read found a member inherited from
    [Object.prototype] instead, the registry and [taskCount] are as they
    were. *)
Theorem remove_frame (arg : RemoveArg) (t t' : TaskTimer) :
  NoDup (keys (tasks t)) ->
  remove arg t = Ok t' ->
  (forall other, other <> target_name arg ->
     own_property other (tasks t') = own_property other (tasks t)) /\
  (forall task, get (target_name arg) t = Some (TaskOf task) ->
     (forall other, other <> target_name arg -> get other t' = get other t) /\
     taskCount t' = taskCount t - 1) /\
  (forall member, get (target_name arg) t = Some (Inherited member) ->
     tasks t' = tasks t /\ taskCount t' = taskCount t) /\
  state t' = state t /\ _timer t' = _timer t /\
  tickCount t' = tickCount t /\ runCount t' = runCount t.
Proof.
  intros ND E.
  destruct (remove_cases arg t) as [[e E']|(found & G & _ & E')];
    rewrite E' in E; [discriminate|]. injection E as <-.
  split; [|split; [|split; [|now repeat split]]].
  - intros other D. unfold tasks. cbn [priv]. rewrite unset_tasks.
    now apply own_delete_other.
  - intros task G'. apply get_task in G'. split.
    + intros other D. unfold get, read. cbn [priv].
      match goal with |- context [unset ?n ?p] =>
        rewrite (unset_registered n task p G') end.
      cbn [P.tasks P.with_tasks P.with_completedCount P.proto].
      now rewrite own_delete_other.
    + rewrite !taskCount_length. unfold tasks. cbn [priv]. rewrite unset_tasks.
      pose proof (length_delete _ _ _ ND G').
      cbn [P.tasks P.with_completedCount]. fold (tasks t). lia.
  - intros member G'. apply get_inherited in G'.
    destruct G' as (_ & G' & _).
    assert (Ht : tasks (mkTimer
                   (unset (target_name arg)
                      (P.with_completedCount
                         (if member_completed found && (0 <? completedCount t)
                          then completedCount t - 1 else completedCount t)
                         (priv t)))
                   (_timer t)
                   (trace t ++
                    [Emitted (mkEvent EventType.TASK_REMOVED (Some found))]))
                 = tasks t).
    { unfold tasks. cbn [priv]. rewrite unset_tasks.
      now apply delete_unregistered. }
    split; [exact Ht|]. unfold taskCount. now rewrite Ht.
Qed.

Lemma remove_frame_witness :
  NoDup (keys (tasks (run NoOptions two_tasks_run))) /\
  remove (ByName "b") (run NoOptions two_tasks_run)
    = Ok (perform (Remove (ByName "b")) (run NoOptions two_tasks_run)) /\
  get "a" (perform (Remove (ByName "b")) (run NoOptions two_tasks_run))
    = get "a" (run NoOptions two_tasks_run) /\
  taskCount (perform (Remove (ByName "b")) (run NoOptions two_tasks_run))
    = taskCount (run NoOptions two_tasks_run) - 1.
Proof.
  assert (ND : NoDup (keys (tasks (run NoOptions two_tasks_run)))).
  { vm_compute. repeat constructor; cbn; intuition discriminate. }
  assert (E : remove (ByName "b") (run NoOptions two_tasks_run)
              = Ok (perform (Remove (ByName "b"))
                      (run NoOptions two_tasks_run)))
    by (vm_compute; reflexivity).
  assert (G : exists k, get "b" (run NoOptions two_tasks_run)
                          = Some (TaskOf k))
    by (vm_compute; eexists; reflexivity).
  destruct G as [k G].
  split; [exact ND|]. split; [exact E|].
  destruct (remove_frame (ByName "b") (run NoOptions two_tasks_run) _ ND E)
    as (_ & Hreg & _).
  destruct (Hreg k G) as [Hother Hcount].
  split; [|exact Hcount].
  apply Hother. discriminate.
Defined.

(** X15.  Adding a task that is not yet completed and removing it again
    restores the registry and [completedCount]: only the two events
    [taskAdded] and [taskRemoved] remain of it. *)
Theorem add_then_remove (item : TaskInput) (t t1 : TaskTimer) :
  not_completed_yet item ->
  _add item t = Ok t1 ->
  exists task t2,
    remove (ByTask task) t1 = Ok t2 /\
    tasks t2 = tasks t /\
    completedCount t2 = completedCount t /\
    priv t2 = priv t /\
    trace t2 = trace t ++ [added_event task;
                           Emitted (mkEvent EventType.TASK_REMOVED
                                      (Some (TaskOf task)))].
Proof.
  intros Hitem E.
  destruct (_add_cases item t) as [[e E']|(name & task & R & G & T & E')];
    rewrite E' in E; [discriminate|]. injection E as <-.
  apply registered_false_own in G.
  pose proof (task_for_name _ _ _ T) as Hn.
  assert (C : Task.completed task = false).
  { destruct item as [cb|o|k]; cbn [wrap not_completed_yet] in T, Hitem.
    - eapply task_for_completed, T.
    - eapply task_for_completed, T.
    - unfold task_for in T. cbn in T. injection T as <-. exact Hitem. }
  pose proof (delete_place name task _ G) as D.
  pose proof (own_place_same name task _ G) as L.
  exists task. eexists.
  unfold remove. cbn [target_name]. rewrite Hn.
  unfold get, read, update, unset, _emit, record.
  cbn [tasks priv _timer trace P.tasks P.with_tasks P.proto
       P.with_completedCount P.completedCount completedCount].
  fold (tasks t). rewrite L.
  destruct (String.eqb_spec name EmptyString) as [->|_].
  { now destruct (resolve_name_not_empty _ _ _ R). }
  cbn [member_completed]. rewrite C. cbn [andb].
  cbn [tasks priv _timer trace P.tasks P.with_tasks P.proto
       P.with_completedCount P.completedCount completedCount].
  fold (tasks t). rewrite L.
  split; [reflexivity|].
  destruct t as [[o s l tc rc st sp cc pr] tm tr].
  unfold tasks in D.
  cbn [tasks priv _timer trace P.tasks P.with_tasks P.proto P.with_proto
       P.with_completedCount P.completedCount completedCount
       P.options P.state P.tickCount P.runCount P.startTime P.stopTime]
    in *.
  rewrite D. rewrite <- app_assoc. repeat split.
Qed.

Lemma add_then_remove_witness :
  not_completed_yet (once "a") /\
  exists task t2,
    remove (ByTask task) (run NoOptions [Add (Single (once "a"))]) = Ok t2 /\
    tasks t2 = tasks (new NoOptions) /\
    completedCount t2 = completedCount (new NoOptions).
Proof.
  split; [exact I|].
  destruct (add_then_remove (once "a") (new NoOptions)
              (run NoOptions [Add (Single (once "a"))]) I eq_refl)
    as (task & t2 & E & Ht & Hc & _).
  exists task, t2. repeat split; assumption.
Defined.

(** ** Changing the interval *)

Lemma on_run_set_interval (now : Z) (v : number) (k : Task.t)
    (t : TaskTimer) :
  on_run now k (set_interval v t) = set_interval v (on_run now k t).
Proof.
  destruct t as [[[i soc] s l tc rc st sp cc pr] tm tr].
  unfold on_run, stop, set_interval, completedCount, taskCount,
    stopOnCompleted, state, update, _emit, record.
  cbn. destruct (Task.completed k); cbn;
    destruct (_ =? _); cbn; try reflexivity;
    destruct soc; cbn; try reflexivity;
    destruct s; reflexivity.
Qed.

Lemma tick_task_set_interval (now : Z) (v : number) (t : TaskTimer)
    (name : string) :
  tick_task now (set_interval v t) name =
    set_interval v (tick_task now t name).
Proof.
  assert (Hr : runs_now (set_interval v t) name = runs_now t name)
    by reflexivity.
  destruct (runs_now t name) eqn:R.
  - destruct (runs_now_get _ _ R) as (k & G & Hk).
    rewrite (tick_task_run now t _ _ G Hk).
    rewrite (tick_task_run now (set_interval v t) name k G Hk).
    rewrite <- on_run_set_interval. reflexivity.
  - rewrite (tick_task_skip now t) by exact R.
    now rewrite tick_task_skip.
Qed.

Lemma tick_loop_set_interval (now : Z) (v : number) (names : list string)
    (t : TaskTimer) :
  fold_left (tick_task now) names (set_interval v t) =
    set_interval v (fold_left (tick_task now) names t).
Proof.
  revert t. induction names as [|n names IH]; intros t; cbn [fold_left].
  - reflexivity.
  - now rewrite tick_task_set_interval, IH.
Qed.

(** X16.  Setting the interval does not touch an armed timer: the period it
    was armed with stays in force through the wakeups that follow (a wakeup
    and the setter commute), and the new value is taken up only when the
    timer is armed again, by [start] or by [pause] and [resume]. *)
Theorem interval_taken_up_on_rearm (v : number) (now : Z) (t : TaskTimer) :
  _timer (set_interval v t) = _timer t /\
  on_interval now (set_interval v t) = set_interval v (on_interval now t) /\
  _timer (start now (set_interval v t)) =
    Some (if truthy v then v else Num 1000) /\
  (state t = State.RUNNING ->
   _timer (resume (pause (set_interval v t))) =
     Some (if truthy v then v else Num 1000)).
Proof.
  split; [reflexivity|]. split; [|split; [reflexivity|]].
  - unfold on_interval, _tick.
    change (keys (tasks (set_interval v t))) with (keys (tasks t)).
    rewrite tick_loop_set_interval. reflexivity.
  - destruct t as [[[i soc] s l tc rc st sp cc pr] tm tr]. cbn.
    now intros ->.
Qed.

Lemma interval_taken_up_on_rearm_witness :
  state (run NoOptions [Start 0]) = State.RUNNING /\
  _timer (set_interval (Num 50) (run NoOptions [Start 0]))
    = Some (Num 1000) /\
  _timer (resume (pause (set_interval (Num 50) (run NoOptions [Start 0]))))
    = Some (Num 50).
Proof.
  split; [reflexivity|]. split; [reflexivity|].
  apply (proj2 (proj2 (proj2
           (interval_taken_up_on_rearm (Num 50) 0 (run NoOptions [Start 0]))))).
  reflexivity.
Defined.

(** ** Elapsed time *)

(** X17.  The [time] getter measures from the last [start]: while the timer
    runs, and also while it is paused, the elapsed time is read against the
    current moment; once [stop] has run it is frozen at the stop time; after
    [reset] the start time is 0, so the elapsed time is the current
    timestamp itself. *)
Theorem elapsed_time (now s later : Z) (t : TaskTimer) :
  time later (start now t) = mkTimeInfo now 0 (later - now) /\
  (state t = State.RUNNING ->
   time later (stop s t) =
     mkTimeInfo (P.startTime (priv t)) s (s - P.startTime (priv t)) /\
   time later (pause t) =
     mkTimeInfo (P.startTime (priv t)) (P.stopTime (priv t))
                (later - P.startTime (priv t))) /\
  time later (stop s (start now t)) = mkTimeInfo now s (s - now) /\
  time later (reset t) = mkTimeInfo 0 0 later.
Proof.
  destruct t as [[[i soc] st l tc rc sa sp cc] tm tr].
  unfold time, start, stop, pause, reset, state. cbn.
  repeat split; try (now rewrite Z.sub_0_r).
  - subst. reflexivity.
  - subst. reflexivity.
Qed.

Lemma elapsed_time_witness :
  state (run NoOptions [Start 100]) = State.RUNNING /\
  time 900 (stop 250 (run NoOptions [Start 100])) = mkTimeInfo 100 250 150 /\
  time 900 (pause (run NoOptions [Start 100])) = mkTimeInfo 100 0 800.
Proof.
  split; [reflexivity|].
  apply (proj1 (proj2 (elapsed_time 0 250 900 (run NoOptions [Start 100])))).
  reflexivity.
Defined.

(** ** Completion with and without [stopOnCompleted] *)

Lemma on_run_keeps_going (now : Z) (k : Task.t) (t : TaskTimer) :
  stopOnCompleted t = false ->
  stopOnCompleted (on_run now k t) = false /\
  state (on_run now k t) = state t /\
  _timer (on_run now k t) = _timer t /\
  P.stopTime (priv (on_run now k t)) = P.stopTime (priv t) /\
  count_events EventType.STOPPED (on_run_effects k t) = 0%nat.
Proof.
  destruct t as [[[i soc] s l tc rc st sp cc pr] tm tr].
  unfold on_run, on_run_effects, completes, stop, completedCount, taskCount,
    stopOnCompleted, state.
  cbn. intros ->.
  destruct (Task.completed k); cbn; rewrite ?Z.add_0_r;
    destruct (_ =? _); cbn; now repeat split.
Qed.

Lemma tick_task_keeps_going (now : Z) (t : TaskTimer) (name : string) :
  stopOnCompleted t = false ->
  stopOnCompleted (tick_task now t name) = false /\
  state (tick_task now t name) = state t /\
  _timer (tick_task now t name) = _timer t /\
  P.stopTime (priv (tick_task now t name)) = P.stopTime (priv t) /\
  exists new,
    trace (tick_task now t name) = trace t ++ new /\
    count_events EventType.STOPPED new = 0%nat.
Proof.
  intros S. destruct (runs_now t name) eqn:R.
  - destruct (runs_now_get _ _ R) as (k & G & Hk).
    rewrite (tick_task_run now _ _ _ G Hk).
    set (k' := Task.record_run now k).
    set (t0 := update _ (record _ t)).
    destruct (on_run_keeps_going now k' t0 S) as (S' & Hs & Ht & Hp & Hn).
    repeat split; try assumption.
    exists (Called (Task.callback k) k :: on_run_effects k' t0). split.
    + rewrite on_run_trace_exact. subst t0. cbn [trace update record].
      now rewrite <- app_assoc.
    + exact Hn.
  - rewrite tick_task_skip by exact R. repeat split; try assumption.
    exists []. now rewrite app_nil_r.
Qed.

Lemma tick_loop_keeps_going (now : Z) (names : list string) (t : TaskTimer) :
  stopOnCompleted t = false ->
  state (fold_left (tick_task now) names t) = state t /\
  _timer (fold_left (tick_task now) names t) = _timer t /\
  P.stopTime (priv (fold_left (tick_task now) names t)) =
    P.stopTime (priv t) /\
  exists new,
    trace (fold_left (tick_task now) names t) = trace t ++ new /\
    count_events EventType.STOPPED new = 0%nat.
Proof.
  revert t. induction names as [|n names IH]; intros t S; cbn [fold_left].
  - repeat split. exists []. now rewrite app_nil_r.
  - destruct (tick_task_keeps_going now t n S)
      as (S1 & Hs1 & Ht1 & Hp1 & new1 & Htr1 & Hn1).
    destruct (IH _ S1) as (Hs2 & Ht2 & Hp2 & new2 & Htr2 & Hn2).
    repeat split; try congruence.
    exists (new1 ++ new2). split.
    + rewrite Htr2, Htr1. now rewrite app_assoc.
    + now rewrite count_events_app, Hn1, Hn2.
Qed.

(** X18.  With [stopOnCompleted] off, a wakeup never stops the timer,
    whatever completes during it: the timer stays armed as it was, the stop
    time is untouched and no [stopped] event is emitted. *)
Theorem wakeup_keeps_going (now : Z) (t : TaskTimer) :
  stopOnCompleted t = false ->
  _timer (on_interval now t) = _timer t /\
  P.stopTime (priv (on_interval now t)) = P.stopTime (priv t) /\
  exists new,
    trace (on_interval now t) = trace t ++ new /\
    count_events EventType.STOPPED new = 0%nat.
Proof.
  intros S.
  destruct (tick_loop_keeps_going now (keys (tasks t)) t S)
    as (_ & Ht & Hp & new & Htr & Hn).
  repeat split; try assumption.
  exists (new ++ [Emitted (mkEvent EventType.TICK None)]). split.
  - change (trace (on_interval now t)) with (trace (_tick now t)).
    rewrite _tick_trace, Htr. now rewrite app_assoc.
  - rewrite count_events_app, Hn. reflexivity.
Qed.

Lemma wakeup_keeps_going_witness :
  stopOnCompleted (run NoOptions [Add (Single (once "a")); Start 0]) = false /\
  all_completed
    (on_interval 1000 (run NoOptions [Add (Single (once "a")); Start 0]))
    = true /\
  _timer (on_interval 1000 (run NoOptions [Add (Single (once "a")); Start 0]))
    = _timer (run NoOptions [Add (Single (once "a")); Start 0]).
Proof.
  split; [reflexivity|]. split; [reflexivity|].
  apply (proj1 (wakeup_keeps_going 1000
                  (run NoOptions [Add (Single (once "a")); Start 0])
                  eq_refl)).
Defined.

(** X19.  With [stopOnCompleted] on, when a wakeup of a running timer whose
    count of completed tasks is right completes the last incomplete task,
    the tick handler returns with the state stopped and the timer disarmed,
    and no later wakeup fires. *)
Theorem auto_stop_disarms (now : Z) (t : TaskTimer) :
  counts_agree t -> stopOnCompleted t = true -> state t = State.RUNNING ->
  all_completed t = false -> all_completed (_tick now t) = true ->
  state (_tick now t) = State.STOPPED /\
  _timer (on_interval now t) = None /\
  forall later, wakeup later (on_interval now t) = None.
Proof.
  intros Hc S R A A'.
  destruct (auto_stop_within_tick now t Hc S R A A') as (Hs & Ht & _ & Hw).
  repeat split; assumption.
Qed.

Lemma auto_stop_disarms_witness :
  counts_agree (run NoOptions auto_stop_run) /\
  stopOnCompleted (run NoOptions auto_stop_run) = true /\
  state (run NoOptions auto_stop_run) = State.RUNNING /\
  all_completed (run NoOptions auto_stop_run) = false /\
  all_completed (_tick 1000 (run NoOptions auto_stop_run)) = true /\
  state (_tick 1000 (run NoOptions auto_stop_run)) = State.STOPPED /\
  _timer (on_interval 1000 (run NoOptions auto_stop_run)) = None.
Proof.
  assert (Hc : counts_agree (run NoOptions auto_stop_run))
    by (vm_compute; reflexivity).
  assert (S : stopOnCompleted (run NoOptions auto_stop_run) = true)
    by (vm_compute; reflexivity).
  assert (R : state (run NoOptions auto_stop_run) = State.RUNNING)
    by (vm_compute; reflexivity).
  assert (A : all_completed (run NoOptions auto_stop_run) = false)
    by (vm_compute; reflexivity).
  assert (A' : all_completed (_tick 1000 (run NoOptions auto_stop_run)) = true)
    by (vm_compute; reflexivity).
  destruct (auto_stop_disarms 1000 (run NoOptions auto_stop_run) Hc S R A A')
    as (Hs & Ht & _).
  repeat split; assumption.
Defined.

(** ** Tick numbers and tick intervals *)

Lemma start_get (now : Z) (t : TaskTimer) (name : string) :
  get name (start now t) = get name t.
Proof. reflexivity. Qed.



(** X21.  The first tick after [start] has the number 0, which every
    non-zero [tickInterval] divides: every registered task that is enabled
    and not completed executes on it, whatever its [tickInterval]. *)
Theorem first_tick_runs_all (now s : Z) (t : TaskTimer) (name : string)
    (k : Task.t) :
  NoDup (keys (tasks t)) ->
  get name t = Some (TaskOf k) ->
  Task.can_run k = true ->
  Task.tickInterval k <> 0 ->
  executes name (start s t) (_tick now (start s t)).
Proof.
  intros ND G C Hnz.
  assert (L : own_property name (tasks (start s t)) = Some k)
    by now apply get_task.
  assert (HIn : In name (keys (tasks (start s t))))
    by (eapply own_in_keys, L).
  destruct (tick_loop_get now _ (start s t) name k ND HIn L)
    as [Hget Htrace].
  assert (R : runs_on (tickCount (start s t)) k = true).
  { unfold runs_on, js_rem. change (tickCount (start s t)) with 0.
    destruct (Z.eqb_spec (Task.tickInterval k) 0); [contradiction|].
    rewrite Z.rem_0_l by assumption. now rewrite C. }
  rewrite R in Hget. destruct (Htrace R) as (before & after & Htr).
  exists k, (Task.record_run now k), before,
    (after ++ [Emitted (mkEvent EventType.TICK None)]).
  repeat split.
  - exact G.
  - apply get_task. exact Hget.
  - rewrite _tick_trace.
    change (keys (tasks (start s t))) with (keys (tasks t)).
    rewrite Htr. now rewrite <- !app_assoc.
Qed.

Lemma first_tick_runs_all_witness :
  NoDup (keys (tasks (run NoOptions
    [Add (Single (FromOptions
       (mkTaskOptions (Some "s"%string) (Some 5) None None None (Some 0%nat))))])))
  /\
  executes "s"
    (start 0 (run NoOptions
      [Add (Single (FromOptions
         (mkTaskOptions (Some "s"%string) (Some 5) None None None
                        (Some 0%nat))))]))
    (_tick 1000 (start 0 (run NoOptions
      [Add (Single (FromOptions
         (mkTaskOptions (Some "s"%string) (Some 5) None None None
                        (Some 0%nat))))]))).
Proof.
  assert (ND : NoDup (keys (tasks (run NoOptions
    [Add (Single (FromOptions
       (mkTaskOptions (Some "s"%string) (Some 5) None None None
                      (Some 0%nat))))])))).
  { vm_compute. repeat constructor. intros []. }
  split; [exact ND|].
  apply (first_tick_runs_all 1000 0 _ "s"
           (Task.mk "s" 5 0 None 0 true false 0%nat) ND eq_refl eq_refl).
  discriminate.
Defined.
